(** * DDS3 Model Studio: binary template types (Resources/types.h)

    A shallow embedding of the template's primitive aliases, packed-normal
    decoder, offset-relative string record, fixed-layout geometry structs
    and display functions, followed by the properties stated about them. *)

From Stdlib Require Import ZArith Lia List String Ascii Bool DecimalString.
From Stdlib Require Import DecimalFacts DecimalPos DecimalN.
From Stdlib Require Import Floats.SpecFloat.
Import ListNotations.
Local Open Scope Z_scope.

(** ** Primitive aliases: fixed-width integers

    [u32] (uint32) and [int] (int32) values are carried as [Z]; every
    operation writes its 32-bit wrap-around out. *)
Module Int.

Definition u32 := Z.
Definition s32 := Z.

(** Conversion to uint32 (assignment to a [u32], result of u32 arithmetic). *)
Definition to_u32 (n : Z) : u32 := n mod 2 ^ 32.

(** Conversion to int32: the cast [(int)e]. *)
Definition to_s32 (n : Z) : s32 :=
  let u := n mod 2 ^ 32 in
  if u <? 2 ^ 31 then u else u - 2 ^ 32.

(** [a + b] on two [u32] operands. *)
Definition add_u32 (a b : u32) : u32 := to_u32 (a + b).

(** [a << n] on a [u32] operand. *)
Definition shl_u32 (a : u32) (n : Z) : u32 := to_u32 (Z.shiftl a n).

(** [a + b], [a - b], [a << n] on [int] operands. *)
Definition add_s32 (a b : s32) : s32 := to_s32 (a + b).
Definition sub_s32 (a b : s32) : s32 := to_s32 (a - b).
Definition shl_s32 (a : s32) (n : Z) : s32 := to_s32 (Z.shiftl a n).

(** [a >> n] on an [int] operand: the sign bit is replicated. *)
Definition shr_s32 (a : s32) (n : Z) : s32 := Z.shiftr a n.

End Int.

(** ** Primitive aliases: floating-point numbers

    [f16] (hfloat), [f32] (float) and [f64] (double) values are IEEE 754
    binary numbers, carried as [spec_float]. *)
Module Float.

Definition f16 := spec_float.
Definition f32 := spec_float.
Definition f64 := spec_float.

Definition prec32 : Z := 24.
Definition emax32 : Z := 128.

(** The cast [(float)n] of an [int]. *)
Definition of_int (n : Z) : f32 := binary_normalize prec32 emax32 n 0 false.

(** [a / b] on two [float] operands. *)
Definition div (a b : f32) : f32 := SFdiv prec32 emax32 a b.

(** Decoding of the bit pattern of a binary float with [ebits] exponent
    bits and [mbits] stored mantissa bits.  Every NaN pattern is decoded to
    the one NaN of [spec_float]: the sign and the payload of a NaN are not
    kept. *)
Definition of_bits (ebits mbits : Z) (b : Z) : spec_float :=
  let s := Z.testbit b (ebits + mbits) in
  let e := (b / 2 ^ mbits) mod 2 ^ ebits in
  let m := b mod 2 ^ mbits in
  let bias := 2 ^ (ebits - 1) - 1 in
  if e =? 0 then
    match m with
    | Zpos p => S754_finite s p (1 - bias - mbits)
    | _ => S754_zero s
    end
  else if e =? 2 ^ ebits - 1 then
    (if m =? 0 then S754_infinity s else S754_nan)
  else
    match m + 2 ^ mbits with
    | Zpos p => S754_finite s p (e - bias - mbits)
    | _ => S754_nan
    end.

Definition f32_of_bits : Z -> f32 := of_bits 8 23.
Definition f16_of_bits : Z -> f16 := of_bits 5 10.

Definition is_finite (x : spec_float) : bool :=
  match x with
  | S754_zero _ | S754_finite _ _ _ => true
  | _ => false
  end.

(** [x] is the number [n / d] rounded to the nearest binary32 value:
    with [x = (-1)^s * m * 2^e], the distance [|m * 2^e - |n|/d|] is at
    most half a unit in the last place, [2^e / 2]. *)
Definition nearest_to_ratio (n d : Z) (x : f32) : bool :=
  match x with
  | S754_zero _ => n =? 0
  | S754_finite s m e =>
      bounded prec32 emax32 m e &&
      Bool.eqb s (n <? 0) &&
      (if 0 <=? e
       then 2 * Z.abs (Zpos m * 2 ^ e * d - Z.abs n) <=? 2 ^ e * d
       else 2 * Z.abs (Zpos m * d - Z.abs n * 2 ^ (- e)) <=? d)
  | _ => false
  end.

End Float.

(** ** The host tool: byte stream, read cursor and text formatting *)
Module Host.

(** Modelled from the spec: the byte stream under inspection belongs to
    the host tool (the template only declares what to read from it).  A
    file is its size and its byte at each address. *)
Record File := mkFile { FileSize : Z; ReadByte : Z -> Z }.

Definition file_of_bytes (l : list Z) : File :=
  mkFile (Z.of_nat (List.length l)) (fun a => nth (Z.to_nat a) l 0).

Definition byte_at (f : File) (a : Z) : Z := ReadByte f a mod 256.

(** The state of a parse: the file, the read cursor, and the targets of
    the seeks performed so far (most recent first). *)
Record Stream := mkStream { file : File; cursor : Z; seeks : list Z }.

Definition at_cursor (st : Stream) (p : Z) : Stream :=
  mkStream (file st) p (seeks st).

Inductive Fault := PastEndOfFile | InvalidSeek.

Inductive result (A : Type) :=
| Ok (a : A) (st : Stream)
| Err (e : Fault).
Arguments Ok {A} a st.
Arguments Err {A} e.

(** Template code runs against the stream and stops at the first fault,
    which goes to the host unchanged. *)
Definition M (A : Type) := Stream -> result A.

Definition ret {A} (a : A) : M A := fun st => Ok a st.

Definition bind {A B} (m : M A) (k : A -> M B) : M B :=
  fun st => match m st with
            | Ok a st' => k a st'
            | Err e => Err e
            end.

Declare Scope host_scope.
Delimit Scope host_scope with host.
Notation "x <- m ;; k" := (bind m (fun x => k))
  (at level 61, m at next level, right associativity) : host_scope.
Notation "m ;; k" := (bind m (fun _ => k))
  (at level 61, right associativity) : host_scope.

(** Modelled from the spec: [tell() -> position]. *)
Definition FTell : M Z := fun st => Ok (cursor st) st.

(** Modelled from the spec: [seek(absolute_position)]; a position outside
    the stream is a fault. *)
Definition FSeek (p : Z) : M unit :=
  fun st =>
    if (0 <=? p) && (p <=? FileSize (file st))
    then Ok tt (mkStream (file st) p (p :: seeks st))
    else Err InvalidSeek.

(** The little-endian value of the [n] bytes at address [a]. *)
Fixpoint le_at (f : File) (n : nat) (a : Z) : Z :=
  match n with
  | O => 0
  | S k => byte_at f a + 256 * le_at f k (a + 1)
  end.

(** Modelled from the spec: [read_u32/f32/f16() -> value, advances
    cursor], failing on stream exhaustion.  A declaration of a variable
    of [n] bytes reads them at the cursor. *)
Definition read_le (n : nat) : M Z :=
  fun st =>
    if (0 <=? cursor st) && (cursor st + Z.of_nat n <=? FileSize (file st))
    then Ok (le_at (file st) n (cursor st))
            (at_cursor st (cursor st + Z.of_nat n))
    else Err PastEndOfFile.

Definition read_u32 : M Int.u32 := read_le 4.

Definition read_f32 : M Float.f32 :=
  (b <- read_le 4 ;; ret (Float.f32_of_bits b))%host.

Definition read_f16 : M Float.f16 :=
  (b <- read_le 2 ;; ret (Float.f16_of_bits b))%host.

(** The text at address [a]: the bytes up to the first zero byte, and the
    address after that terminator.  [fuel] bounds the bytes examined. *)
Fixpoint text_at (f : File) (fuel : nat) (a : Z) : option (string * Z) :=
  match fuel with
  | O => None
  | S k =>
      let b := byte_at f a in
      if b =? 0 then Some (EmptyString, a + 1)
      else match text_at f k (a + 1) with
           | Some (s, q) => Some (String (ascii_of_N (Z.to_N b)) s, q)
           | None => None
           end
  end.

(** Modelled from the spec: [read_text_until_terminator() -> string],
    with a zero byte as the terminator; a text that runs to the end of
    the stream exhausts it. *)
Definition read_string : M string :=
  fun st =>
    if (0 <=? cursor st) && (cursor st <=? FileSize (file st))
    then match text_at (file st)
                 (Z.to_nat (FileSize (file st) - cursor st)) (cursor st) with
         | Some (s, q) => Ok s (at_cursor st q)
         | None => Err PastEndOfFile
         end
    else Err PastEndOfFile.

End Host.

(** ** The host tool: formatted text *)
Module Text.

Definition digit (d : Z) : ascii := ascii_of_N (Z.to_N (48 + d mod 10)).



(** The integer [n >= 0] in decimal, at least one digit. *)
Definition decimal (n : Z) : string :=
  NilZero.string_of_uint (N.to_uint (Z.to_N n)).

(** The six decimal digits of [r], for [0 <= r < 10^6]. *)
Definition frac6 (r : Z) : string :=
  String (digit (r / 100000)) (String (digit (r / 10000))
 (String (digit (r / 1000)) (String (digit (r / 100))
 (String (digit (r / 10)) (String (digit r) EmptyString))))).

(** [m * 2^e * 10^6] rounded to the nearest integer, ties to even. *)
Definition scaled6 (m : positive) (e : Z) : Z :=
  let n := Zpos m * 10 ^ 6 in
  if 0 <=? e then n * 2 ^ e
  else
    let d := 2 ^ (- e) in
    let q := n / d in
    match 2 * (n mod d) ?= d with
    | Lt => q
    | Gt => q + 1
    | Eq => if Z.even q then q else q + 1
    end.

Definition sign_text (s : bool) : string := if s then "-" else EmptyString.

Definition fixed6_of_scaled (s : bool) (q : Z) : string :=
  sign_text s ++ decimal (q / 10 ^ 6) ++ "." ++ frac6 (q mod 10 ^ 6).

(** Modelled from the spec: the conversion [%.6f] of the host's SPrintf,
    a fixed-precision rendering with 6 decimal digits of a number; the
    value is rendered exactly, rounded at the sixth decimal. *)
Definition fixed6 (x : Float.f64) : string :=
  match x with
  | S754_nan => "nan"
  | S754_infinity s => sign_text s ++ "inf"
  | S754_zero s => fixed6_of_scaled s 0
  | S754_finite s m e => fixed6_of_scaled s (scaled6 m e)
  end.

(** The text of a format: each [%.6f] takes the next argument, any other
    character stands for itself.  [None] when the arguments run out. *)
Fixpoint render (format : string) (args : list Float.f64) : option string :=
  match format with
  | EmptyString => Some EmptyString
  | String "%" (String "." (String "6" (String "f" rest))) =>
      match args with
      | a :: args' =>
          match render rest args' with
          | Some s => Some (fixed6 a ++ s)%string
          | None => None
          end
      | [] => None
      end
  | String c rest =>
      match render rest args with
      | Some s => Some (String c s)
      | None => None
      end
  end.

(** Modelled from the spec: SPrintf into a [local char buffer[capacity]]
    whose content is then returned as a string.  The text and its
    terminator have to fit the buffer; what the host does with a longer
    text is not specified, and is reported here as [None]. *)
Definition SPrintf (capacity : nat) (format : string)
  (args : list Float.f64) : option string :=
  match render format args with
  | Some s => if (String.length s <? capacity)%nat then Some s else None
  | None => None
  end.

End Text.

Import Host Text.

(** ** Vector and geometry structs, with their display functions *)

Module Vector2.
Record t := mk { X : Float.f32; Y : Float.f32 }.

Definition parse : M t :=
  (X <- read_f32 ;; Y <- read_f32 ;; ret (mk X Y))%host.
End Vector2.

Definition Vector2ToString (value : Vector2.t) : option string :=
  SPrintf 255 "[%.6f, %.6f]" [Vector2.X value; Vector2.Y value].

Module Vector2Half.
Record t := mk { X : Float.f16; Y : Float.f16 }.

Definition parse : M t :=
  (X <- read_f16 ;; Y <- read_f16 ;; ret (mk X Y))%host.
End Vector2Half.

Definition Vector2HalfToString (value : Vector2Half.t) : option string :=
  SPrintf 255 "[%.6f, %.6f]" [Vector2Half.X value; Vector2Half.Y value].

Module Vector3.
Record t := mk { X : Float.f32; Y : Float.f32; Z : Float.f32 }.

Definition parse : M t :=
  (X <- read_f32 ;; Y <- read_f32 ;; Z <- read_f32 ;; ret (mk X Y Z))%host.
End Vector3.

Definition Vector3ToString (value : Vector3.t) : option string :=
  SPrintf 255 "[%.6f, %.6f, %.6f]"
    [Vector3.X value; Vector3.Y value; Vector3.Z value].

Module Vector4.
Record t := mk { X : Float.f32; Y : Float.f32; Z : Float.f32; W : Float.f32 }.

Definition parse : M t :=
  (X <- read_f32 ;; Y <- read_f32 ;; Z <- read_f32 ;; W <- read_f32 ;;
   ret (mk X Y Z W))%host.
End Vector4.

Definition Vector4ToString (value : Vector4.t) : option string :=
  SPrintf 255 "[%.6f, %.6f, %.6f, %.6f]"
    [Vector4.X value; Vector4.Y value; Vector4.Z value; Vector4.W value].

Module BoundingBox.
Record t := mk { Min : Vector3.t; Max : Vector3.t }.

Definition parse : M t :=
  (Min <- Vector3.parse ;; Max <- Vector3.parse ;; ret (mk Min Max))%host.
End BoundingBox.

Definition BoundingBoxToString (value : BoundingBox.t) : option string :=
  SPrintf 255 "[%.6f, %.6f, %.6f] [%.6f, %.6f, %.6f]"
    [Vector3.X (BoundingBox.Min value); Vector3.Y (BoundingBox.Min value);
     Vector3.Z (BoundingBox.Min value); Vector3.X (BoundingBox.Max value);
     Vector3.Y (BoundingBox.Max value); Vector3.Z (BoundingBox.Max value)].

Module BoundingSphere.
Record t := mk { Center : Vector3.t; Radius : Float.f32 }.

Definition parse : M t :=
  (Center <- Vector3.parse ;; Radius <- read_f32 ;;
   ret (mk Center Radius))%host.
End BoundingSphere.

Definition BoundingSphereToString (value : BoundingSphere.t) : option string :=
  SPrintf 255 "[%.6f, %.6f, %.6f] %.6f"
    [Vector3.X (BoundingSphere.Center value);
     Vector3.Y (BoundingSphere.Center value);
     Vector3.Z (BoundingSphere.Center value); BoundingSphere.Radius value].

(** ** Packed normal, 11/11/10 bits *)

Module Normal11_11_10ToString.
Record t := mk { Value : Int.u32 }.

Definition parse : M t := (Value <- read_u32 ;; ret (mk Value))%host.
End Normal11_11_10ToString.

(** The locals of [ReadNormal11_11_10], as functions of the packed word. *)
Module Normal.

Definition FULL_WIDTH : Int.s32 := 32.

Definition X_POS : Int.s32 := 0.
Definition X_WIDTH : Int.s32 := 11.
Definition X_LSHIFT : Int.s32 := Int.sub_s32 (Int.sub_s32 FULL_WIDTH X_POS) X_WIDTH.
Definition X_RSHIFT : Int.s32 := Int.sub_s32 FULL_WIDTH X_WIDTH.
Definition X_DOT : Int.s32 := Int.sub_s32 (Int.shl_s32 1 (Int.sub_s32 X_WIDTH 1)) 1.

Definition Y_POS : Int.s32 := Int.add_s32 X_POS X_WIDTH.
Definition Y_WIDTH : Int.s32 := 11.
Definition Y_LSHIFT : Int.s32 := Int.sub_s32 (Int.sub_s32 FULL_WIDTH Y_POS) Y_WIDTH.
Definition Y_RSHIFT : Int.s32 := Int.sub_s32 FULL_WIDTH Y_WIDTH.
Definition Y_DOT : Int.s32 := Int.sub_s32 (Int.shl_s32 1 (Int.sub_s32 Y_WIDTH 1)) 1.

Definition Z_POS : Int.s32 := Int.add_s32 Y_POS Y_WIDTH.
Definition Z_WIDTH : Int.s32 := 10.
Definition Z_LSHIFT : Int.s32 := Int.sub_s32 (Int.sub_s32 FULL_WIDTH Z_POS) Z_WIDTH.
Definition Z_RSHIFT : Int.s32 := Int.sub_s32 FULL_WIDTH Z_WIDTH.
Definition Z_DOT : Int.s32 := Int.sub_s32 (Int.shl_s32 1 (Int.sub_s32 Z_WIDTH 1)) 1.

Definition xInt (packed : Int.u32) : Int.s32 :=
  Int.shr_s32 (Int.to_s32 (Int.shl_u32 packed X_LSHIFT)) X_RSHIFT.
Definition yInt (packed : Int.u32) : Int.s32 :=
  Int.shr_s32 (Int.to_s32 (Int.shl_u32 packed Y_LSHIFT)) Y_RSHIFT.
Definition zInt (packed : Int.u32) : Int.s32 :=
  Int.shr_s32 (Int.to_s32 (Int.shl_u32 packed Z_LSHIFT)) Z_RSHIFT.

Definition x (packed : Int.u32) : Float.f32 :=
  Float.div (Float.of_int (xInt packed)) (Float.of_int X_DOT).
Definition y (packed : Int.u32) : Float.f32 :=
  Float.div (Float.of_int (yInt packed)) (Float.of_int Y_DOT).
Definition z (packed : Int.u32) : Float.f32 :=
  Float.div (Float.of_int (zInt packed)) (Float.of_int Z_DOT).

(** The decoded components, in output order. *)
Definition decode (packed : Int.u32) : Float.f32 * Float.f32 * Float.f32 :=
  (x packed, y packed, z packed).

(** The statement of the extraction in the specification's words: the
    field of width [W] at position [P] is
    [(int32)(word << (32 - P - W)) >> (32 - W)]. *)
Definition signed_field (P W : Z) (word : Z) : Z :=
  Z.shiftr (Int.to_s32 (Z.shiftl word (32 - P - W))) (32 - W).

(** The [W] bits of [word] from bit [P] on, read as a two's complement
    number. *)
Definition field_bits (P W : Z) (word : Z) : Z := (word / 2 ^ P) mod 2 ^ W.

Definition sign_extend (W : Z) (u : Z) : Z :=
  if u <? 2 ^ (W - 1) then u else u - 2 ^ W.

End Normal.

Definition ReadNormal11_11_10 (value : Normal11_11_10ToString.t) : option string :=
  let packed := Normal11_11_10ToString.Value value in
  SPrintf 255 "[%.6f, %.6f, %.6f]"
    [Normal.x packed; Normal.y packed; Normal.z packed].

(** ** Offset-relative string *)

Module StringOffset.
(** [Value] is declared only when [Offset] is not zero. *)
Record t := mk { Offset : Int.u32; Value : option string }.

Definition parse (base : Int.u32) : M t :=
  (Offset <- read_u32 ;;
   if negb (Offset =? 0) then
     pos <- FTell ;;
     let returnPos := Int.to_u32 pos in
     FSeek (Int.add_u32 base Offset) ;;
     Value <- read_string ;;
     FSeek returnPos ;;
     ret (mk Offset (Some Value))
   else
     ret (mk Offset None))%host.
End StringOffset.

(** [None] stands for the host's fault on a member that was not declared. *)
Definition StringOffsetToString (value : StringOffset.t) : option string :=
  if StringOffset.Offset value =? 0 then Some EmptyString
  else StringOffset.Value value.

(** ** Vocabulary of the statements *)

Module Spec.

(** All signed codes of a field of width [W], from [-2^(W-1)] up to
    [2^(W-1) - 1]. *)
Definition codes (W : Z) : list Z :=
  map (fun i => Z.of_nat i - 2 ^ (W - 1)) (seq 0 (Z.to_nat (2 ^ W))).

(** The binary32 quotient of the integers [n] and [d]. *)
Definition quotient (d n : Z) : Float.f32 :=
  Float.div (Float.of_int n) (Float.of_int d).

(** What holds of the quotient of every code by the divisor [d]: it is the
    correctly rounded ratio, it is not the ratio by [d + 1] unless the code
    is zero, it is a finite number, and its text is short. *)
Definition quotient_ok (d n : Z) : bool :=
  Float.nearest_to_ratio n d (quotient d n) &&
  ((n =? 0) || negb (Float.nearest_to_ratio n (d + 1) (quotient d n))) &&
  Float.is_finite (quotient d n) &&
  (String.length (fixed6 (quotient d n)) <=? 9)%nat.

(** Two words agree on the bits [lo .. hi - 1]. *)
Definition agree_on (lo hi : Z) (a b : Z) : Prop :=
  forall i, lo <= i < hi -> Z.testbit a i = Z.testbit b i.

(** The binary32 and binary16 values stored little-endian at address [a]. *)
Definition f32_at (f : File) (a : Z) : Float.f32 :=
  Float.f32_of_bits (le_at f 4 a).
Definition f16_at (f : File) (a : Z) : Float.f16 :=
  Float.f16_of_bits (le_at f 2 a).




(** A rendered text as SPrintf hands it back from a buffer of 255
    characters. *)
Definition buffered (s : string) : option string :=
  if (String.length s <? 255)%nat then Some s else None.

(** The text at [target], as the host reads it from there. *)
Definition text_from (f : File) (target : Z) : option (string * Z) :=
  text_at f (Z.to_nat (FileSize f - target)) target.

(** A parser reads a value of [width] bytes: from any cursor position it
    succeeds exactly when [width] bytes are left, yields the value laid out
    at the cursor, and moves the cursor by [width], seeking nowhere. *)
Definition reads {A} (parse : M A) (width : Z) (value : File -> Z -> A) : Prop :=
  forall st, 0 <= cursor st ->
    (cursor st + width <= FileSize (file st) ->
     parse st = Ok (value (file st) (cursor st))
                   (at_cursor st (cursor st + width))) /\
    (FileSize (file st) < cursor st + width -> parse st = Err PastEndOfFile).

End Spec.

(** ** Sample streams *)

Module Example.
(** A small string table: at 0 an offset of -8 (relative to a base of 16),
    at 4 an offset of 0, at 8 the text "Hi", at 12 an offset of 4, at 16 an
    empty text. *)
Definition table : File :=
  file_of_bytes [0xF8; 0xFF; 0xFF; 0xFF;  0; 0; 0; 0;  72; 105; 0; 0;
                 4; 0; 0; 0;  0; 0; 0; 0].

(** A stream of more than 4 GiB: the text "A" at 8, and a record with
    offset 8 in the four bytes below address 2^32. *)
Definition huge : File :=
  mkFile (2 ^ 32 + 16)
    (fun a => if a =? 2 ^ 32 - 4 then 8 else if a =? 8 then 65 else 0).

(** The bytes [00 00 80 3F 00 00 00 40] followed by sixteen more. *)
Definition floats : File :=
  file_of_bytes [0; 0; 0x80; 0x3F;  0; 0; 0; 0x40;  0; 0; 0x40; 0x40;
                 0; 0x3C; 0; 0xC0;  0; 0; 0x80; 0xBF;  0xFF; 0x03; 0; 0].
End Example.

(** ** Vocabulary of the further properties *)

(** Re-encoding and ordering of the decoded components. *)
Module Codec.

(** The integer nearest to [x * d]: the code that a value [x] stands for
    when codes are decoded by a division by [d]. *)
Definition code_of (d : Z) (x : Float.f32) : Z :=
  match x with
  | S754_finite s m e =>
      let v := Zpos m * d in
      let r := if 0 <=? e then v * 2 ^ e
               else (2 * v + 2 ^ (- e)) / (2 * 2 ^ (- e)) in
      if s then - r else r
  | _ => 0
  end.

(** The packed word of three values: each code in its field, two's
    complement. *)
Definition pack (v : Float.f32 * Float.f32 * Float.f32) : Z :=
  let '(x, y, z) := v in
  code_of 1023 x mod 2 ^ 11
  + 2 ^ 11 * (code_of 1023 y mod 2 ^ 11)
  + 2 ^ 22 * (code_of 511 z mod 2 ^ 10).

(** Structural equality of floating-point values. *)
Definition same (a b : spec_float) : bool :=
  match a, b with
  | S754_zero s, S754_zero s' => Bool.eqb s s'
  | S754_infinity s, S754_infinity s' => Bool.eqb s s'
  | S754_nan, S754_nan => true
  | S754_finite s m e, S754_finite s' m' e' =>
      Bool.eqb s s' && (m =? m')%positive && (e =? e')
  | _, _ => false
  end.

(** What holds of the quotient of the code [n] by [d], for [W]-bit codes:
    the code is recovered from it; it is at most 1.0 and at least the
    quotient of the minimum code; it is below -1.0 only for the minimum
    code; and the quotient of the opposite code is its opposite. *)
Definition quotient_fits (W d n : Z) : bool :=
  (code_of d (Spec.quotient d n) =? n) &&
  SFleb (Spec.quotient d n) (Float.of_int 1) &&
  SFleb (Spec.quotient d (- 2 ^ (W - 1))) (Spec.quotient d n) &&
  Bool.eqb (SFltb (Spec.quotient d n) (Float.of_int (-1))) (n =? - 2 ^ (W - 1)) &&
  Bool.eqb (SFltb (Spec.quotient d n) (Float.of_int 0)) (n <? 0) &&
  ((n =? 0) || (n =? - 2 ^ (W - 1)) ||
   same (Spec.quotient d (- n)) (SFopp (Spec.quotient d n))).

(** A number that orders the binary32 values with mantissa below 2^24 and
    exponent above -200 as they are ordered as numbers. *)
Definition rank (x : spec_float) : Z :=
  match x with
  | S754_finite s m e =>
      let r := (e + 200) * 2 ^ 24 + Zpos m in
      if s then - r else r
  | _ => 0
  end.

Definition ranked (x : spec_float) : bool :=
  match x with
  | S754_zero _ => true
  | S754_finite _ m e => (Zpos m <? 2 ^ 24) && (-200 <? e)
  | _ => false
  end.

(** The quotient of the code [n] is ranked, and below the quotient of the
    next code, unless [n] is the maximum code. *)
Definition steps_up (W d n : Z) : bool :=
  ranked (Spec.quotient d n) &&
  ((n =? 2 ^ (W - 1) - 1) ||
   (rank (Spec.quotient d n) <? rank (Spec.quotient d (n + 1)))).

End Codec.

(** Magnitudes and texts. *)
Module Bound.
(** A binary floating-point value of at most 24 mantissa bits and exponent
    at most 104: its magnitude is below 2^128. *)
Definition ranged (x : spec_float) : bool :=
  match x with
  | S754_finite _ m e => (Zpos m <? 2 ^ 24) && (e <=? 104)
  | _ => true
  end.

(** The text of a Vector3 and of a BoundingBox, before it goes through the
    buffer. *)
Definition vector3_text (v : Vector3.t) : string :=
  "[" ++ fixed6 (Vector3.X v) ++ ", " ++ fixed6 (Vector3.Y v) ++ ", "
  ++ fixed6 (Vector3.Z v) ++ "]".

Definition box_text (v : BoundingBox.t) : string :=
  vector3_text (BoundingBox.Min v) ++ " " ++ vector3_text (BoundingBox.Max v).
End Bound.

(** ** Further sample streams *)

Module Edge.
(** A record with offset 4 whose text "AB" runs to the end of the stream. *)
Definition unterminated : File := file_of_bytes [4; 0; 0; 0;  65; 66].

(** Two records back to back, referring to the texts "B" at 11 and "A" at
    9, with base 0. *)
Definition pair : File :=
  file_of_bytes [11; 0; 0; 0;  9; 0; 0; 0;  0;  65; 0;  66; 0].

(** Six times the most negative finite binary32 value, FF FF 7F FF. *)
Definition extremes : File :=
  file_of_bytes [0xFF; 0xFF; 0x7F; 0xFF;  0xFF; 0xFF; 0x7F; 0xFF;
                 0xFF; 0xFF; 0x7F; 0xFF;  0xFF; 0xFF; 0x7F; 0xFF;
                 0xFF; 0xFF; 0x7F; 0xFF;  0xFF; 0xFF; 0x7F; 0xFF].
End Edge.

(** ** Reading a display text back *)

Module Reading.







End Reading.

(** * Properties *)

(** ** Machine integers *)

Lemma to_s32_range n : - 2 ^ 31 <= Int.to_s32 n < 2 ^ 31.
Proof.
  unfold Int.to_s32.
  pose proof (Z.mod_pos_bound n (2 ^ 32) ltac:(lia)).
  destruct (Z.ltb_spec (n mod 2 ^ 32) (2 ^ 31)); lia.
Qed.

Lemma to_s32_to_u32 n : Int.to_s32 (Int.to_u32 n) = Int.to_s32 n.
Proof.
  unfold Int.to_s32, Int.to_u32. rewrite Z.mod_mod by lia. reflexivity.
Qed.

Lemma to_u32_small n : 0 <= n < 2 ^ 32 -> Int.to_u32 n = n.
Proof. intros. unfold Int.to_u32. apply Z.mod_small; assumption. Qed.

Lemma to_u32_range n : 0 <= Int.to_u32 n < 2 ^ 32.
Proof. unfold Int.to_u32. apply Z.mod_pos_bound. lia. Qed.

Lemma pow2_double W : 0 < W -> 2 ^ W = 2 * 2 ^ (W - 1).
Proof.
  intros. replace W with (1 + (W - 1)) at 1 by lia.
  rewrite Z.pow_add_r by lia. reflexivity.
Qed.

(** ** Packed normal: the integer fields *)

(** The shift pair of the specification extracts the two's complement
    value of the field's bits. *)
Lemma signed_field_bits P W word :
  0 <= P -> 0 < W -> P + W <= 32 ->
  Normal.signed_field P W word = Normal.sign_extend W (Normal.field_bits P W word).
Proof.
  intros HP HW HPW.
  unfold Normal.signed_field, Normal.sign_extend, Normal.field_bits, Int.to_s32.
  cbv zeta.
  rewrite Z.shiftl_mul_pow2, Z.shiftr_div_pow2 by lia.
  set (k := 32 - P - W).
  assert (E32 : 2 ^ 32 = 2 ^ (P + W) * 2 ^ k)
    by (rewrite <- Z.pow_add_r by lia; f_equal; lia).
  assert (Hk : 0 < 2 ^ k) by (apply Z.pow_pos_nonneg; lia).
  assert (HPp : 0 < 2 ^ P) by (apply Z.pow_pos_nonneg; lia).
  assert (HWp : 0 < 2 ^ W) by (apply Z.pow_pos_nonneg; lia).
  assert (HW1 : 0 < 2 ^ (W - 1)) by (apply Z.pow_pos_nonneg; lia).
  rewrite E32, Z.mul_mod_distr_r by lia.
  assert (EPW : 2 ^ (P + W) = 2 ^ P * 2 ^ W) by (apply Z.pow_add_r; lia).
  rewrite EPW, Z.rem_mul_r by lia.
  set (lo := word mod 2 ^ P). set (f := (word / 2 ^ P) mod 2 ^ W).
  assert (Hlo : 0 <= lo < 2 ^ P) by (apply Z.mod_pos_bound; lia).
  assert (Hf : 0 <= f < 2 ^ W) by (apply Z.mod_pos_bound; lia).
  assert (ER : 2 ^ (32 - W) = 2 ^ P * 2 ^ k)
    by (rewrite <- Z.pow_add_r by lia; f_equal; lia).
  assert (E31 : 2 ^ 31 = 2 ^ (W - 1) * (2 ^ P * 2 ^ k))
    by (rewrite <- !Z.pow_add_r by lia; f_equal; lia).
  pose proof (pow2_double W HW) as EW.
  rewrite ER.
  destruct (Z.ltb_spec ((lo + 2 ^ P * f) * 2 ^ k) (2 ^ 31));
    destruct (Z.ltb_spec f (2 ^ (W - 1))).
  - symmetry. apply Z.div_unique with (r := lo * 2 ^ k); nia.
  - exfalso. nia.
  - exfalso. nia.
  - symmetry. apply Z.div_unique with (r := lo * 2 ^ k); nia.
Qed.

Lemma xInt_signed_field w : Normal.xInt w = Normal.signed_field 0 11 w.
Proof.
  unfold Normal.xInt, Int.shl_u32, Int.shr_s32.
  rewrite to_s32_to_u32. reflexivity.
Qed.

Lemma yInt_signed_field w : Normal.yInt w = Normal.signed_field 11 11 w.
Proof.
  unfold Normal.yInt, Int.shl_u32, Int.shr_s32.
  rewrite to_s32_to_u32. reflexivity.
Qed.

Lemma zInt_signed_field w : Normal.zInt w = Normal.signed_field 22 10 w.
Proof.
  unfold Normal.zInt, Int.shl_u32, Int.shr_s32.
  rewrite to_s32_to_u32. reflexivity.
Qed.

Lemma sign_extend_range W u :
  0 < W -> 0 <= u < 2 ^ W ->
  - 2 ^ (W - 1) <= Normal.sign_extend W u <= 2 ^ (W - 1) - 1.
Proof.
  intros HW Hu. unfold Normal.sign_extend.
  pose proof (pow2_double W HW).
  destruct (Z.ltb_spec u (2 ^ (W - 1))); lia.
Qed.

Lemma field_bits_range P W w : 0 <= W -> 0 <= Normal.field_bits P W w < 2 ^ W.
Proof.
  intros. unfold Normal.field_bits.
  apply Z.mod_pos_bound, Z.pow_pos_nonneg; lia.
Qed.

Lemma xInt_bits w : Normal.xInt w = Normal.sign_extend 11 (Normal.field_bits 0 11 w).
Proof. rewrite xInt_signed_field. apply signed_field_bits; lia. Qed.

Lemma yInt_bits w : Normal.yInt w = Normal.sign_extend 11 (Normal.field_bits 11 11 w).
Proof. rewrite yInt_signed_field. apply signed_field_bits; lia. Qed.

Lemma zInt_bits w : Normal.zInt w = Normal.sign_extend 10 (Normal.field_bits 22 10 w).
Proof. rewrite zInt_signed_field. apply signed_field_bits; lia. Qed.

Lemma xInt_range w : - 2 ^ (11 - 1) <= Normal.xInt w <= 2 ^ (11 - 1) - 1.
Proof.
  rewrite xInt_bits. apply sign_extend_range; [lia | apply field_bits_range; lia].
Qed.

Lemma yInt_range w : - 2 ^ (11 - 1) <= Normal.yInt w <= 2 ^ (11 - 1) - 1.
Proof.
  rewrite yInt_bits. apply sign_extend_range; [lia | apply field_bits_range; lia].
Qed.

Lemma zInt_range w : - 2 ^ (10 - 1) <= Normal.zInt w <= 2 ^ (10 - 1) - 1.
Proof.
  rewrite zInt_bits. apply sign_extend_range; [lia | apply field_bits_range; lia].
Qed.

(** C1. For every input word, each of the three fields X (width 11 at bit
    0), Y (width 11 at bit 11) and Z (width 10 at bit 22) is extracted as
    [(int32)(word << (32 - P - W)) >> (32 - W)], which is the two's
    complement reading of the field's bits, and lies in
    [-2^(W-1), 2^(W-1) - 1]. *)
Theorem packed_normal_fields_sign_extended (word : Z) :
  (Normal.X_POS = 0 /\ Normal.X_WIDTH = 11 /\
   Normal.Y_POS = 11 /\ Normal.Y_WIDTH = 11 /\
   Normal.Z_POS = 22 /\ Normal.Z_WIDTH = 10) /\
  (Normal.xInt word = Normal.signed_field 0 11 word /\
   Normal.xInt word = Normal.sign_extend 11 (Normal.field_bits 0 11 word) /\
   - 2 ^ (11 - 1) <= Normal.xInt word <= 2 ^ (11 - 1) - 1) /\
  (Normal.yInt word = Normal.signed_field 11 11 word /\
   Normal.yInt word = Normal.sign_extend 11 (Normal.field_bits 11 11 word) /\
   - 2 ^ (11 - 1) <= Normal.yInt word <= 2 ^ (11 - 1) - 1) /\
  (Normal.zInt word = Normal.signed_field 22 10 word /\
   Normal.zInt word = Normal.sign_extend 10 (Normal.field_bits 22 10 word) /\
   - 2 ^ (10 - 1) <= Normal.zInt word <= 2 ^ (10 - 1) - 1).
Proof.
  split; [repeat split | ].
  split; [ | split ].
  - split; [exact (xInt_signed_field word) | ].
    split; [exact (xInt_bits word) | exact (xInt_range word)].
  - split; [exact (yInt_signed_field word) | ].
    split; [exact (yInt_bits word) | exact (yInt_range word)].
  - split; [exact (zInt_signed_field word) | ].
    split; [exact (zInt_bits word) | exact (zInt_range word)].
Qed.

(** ** Packed normal: the floating-point outputs *)

Lemma in_codes W n :
  0 < W -> - 2 ^ (W - 1) <= n <= 2 ^ (W - 1) - 1 -> In n (Spec.codes W).
Proof.
  intros HW Hn. unfold Spec.codes.
  pose proof (pow2_double W HW).
  apply in_map_iff. exists (Z.to_nat (n + 2 ^ (W - 1))). split; [lia|].
  apply in_seq. lia.
Qed.

Lemma forall_codes (P : Z -> bool) W :
  0 < W -> forallb P (Spec.codes W) = true ->
  forall n, - 2 ^ (W - 1) <= n <= 2 ^ (W - 1) - 1 -> P n = true.
Proof.
  intros HW HP n Hn. rewrite forallb_forall in HP.
  apply HP, in_codes; assumption.
Qed.

Lemma x_quotient w : Normal.x w = Spec.quotient 1023 (Normal.xInt w).
Proof. reflexivity. Qed.
Lemma y_quotient w : Normal.y w = Spec.quotient 1023 (Normal.yInt w).
Proof. reflexivity. Qed.
Lemma z_quotient w : Normal.z w = Spec.quotient 511 (Normal.zInt w).
Proof. reflexivity. Qed.

Lemma quotient_ok_11 : forallb (Spec.quotient_ok 1023) (Spec.codes 11) = true.
Proof. vm_compute. reflexivity. Qed.

Lemma quotient_ok_10 : forallb (Spec.quotient_ok 511) (Spec.codes 10) = true.
Proof. vm_compute. reflexivity. Qed.

Lemma x_ok w : Spec.quotient_ok 1023 (Normal.xInt w) = true.
Proof. apply (forall_codes _ 11); [lia | exact quotient_ok_11 | apply xInt_range]. Qed.
Lemma y_ok w : Spec.quotient_ok 1023 (Normal.yInt w) = true.
Proof. apply (forall_codes _ 11); [lia | exact quotient_ok_11 | apply yInt_range]. Qed.
Lemma z_ok w : Spec.quotient_ok 511 (Normal.zInt w) = true.
Proof. apply (forall_codes _ 10); [lia | exact quotient_ok_10 | apply zInt_range]. Qed.

Lemma quotient_ok_inv d n :
  Spec.quotient_ok d n = true ->
  Float.nearest_to_ratio n d (Spec.quotient d n) = true /\
  ((n =? 0) || negb (Float.nearest_to_ratio n (d + 1) (Spec.quotient d n))) = true /\
  Float.is_finite (Spec.quotient d n) = true /\
  (String.length (fixed6 (Spec.quotient d n)) <= 9)%nat.
Proof.
  unfold Spec.quotient_ok. rewrite !andb_true_iff, Nat.leb_le. tauto.
Qed.

(** C2. For every input word, each output is the binary32 quotient of the
    sign-extended field by [2^(W-1) - 1]: 1023 for the 11-bit X and Y
    fields and 511 for the 10-bit Z field.  The quotient is the ratio
    field / divisor correctly rounded, and, for a nonzero field, it is not
    the rounded ratio by 1024 (or 512). *)
Theorem packed_normal_normalized_by_max_code (word : Z) :
  (Normal.X_DOT = 2 ^ (11 - 1) - 1 /\ Normal.Y_DOT = 2 ^ (11 - 1) - 1 /\
   Normal.Z_DOT = 2 ^ (10 - 1) - 1 /\
   Normal.X_DOT = 1023 /\ Normal.Y_DOT = 1023 /\ Normal.Z_DOT = 511) /\
  (Normal.x word = Float.div (Float.of_int (Normal.xInt word)) (Float.of_int 1023) /\
   Float.nearest_to_ratio (Normal.xInt word) 1023 (Normal.x word) = true /\
   ((Normal.xInt word =? 0) ||
    negb (Float.nearest_to_ratio (Normal.xInt word) 1024 (Normal.x word))) = true) /\
  (Normal.y word = Float.div (Float.of_int (Normal.yInt word)) (Float.of_int 1023) /\
   Float.nearest_to_ratio (Normal.yInt word) 1023 (Normal.y word) = true /\
   ((Normal.yInt word =? 0) ||
    negb (Float.nearest_to_ratio (Normal.yInt word) 1024 (Normal.y word))) = true) /\
  (Normal.z word = Float.div (Float.of_int (Normal.zInt word)) (Float.of_int 511) /\
   Float.nearest_to_ratio (Normal.zInt word) 511 (Normal.z word) = true /\
   ((Normal.zInt word =? 0) ||
    negb (Float.nearest_to_ratio (Normal.zInt word) 512 (Normal.z word))) = true).
Proof.
  split; [repeat split | ].
  destruct (quotient_ok_inv _ _ (x_ok word)) as (Hx1 & Hx2 & _).
  destruct (quotient_ok_inv _ _ (y_ok word)) as (Hy1 & Hy2 & _).
  destruct (quotient_ok_inv _ _ (z_ok word)) as (Hz1 & Hz2 & _).
  rewrite x_quotient, y_quotient, z_quotient.
  split; [ | split ]; (split; [reflexivity | split; assumption]).
Qed.

Lemma sign_extend_field_x word u :
  Normal.field_bits 0 11 word = u -> Normal.xInt word = Normal.sign_extend 11 u.
Proof. intros <-. apply xInt_bits. Qed.

(** C3. Boundary codes: the word 0 decodes to (0.0, 0.0, 0.0); a word
    whose X field is the maximum positive code 0x3FF decodes to
    x = 1023/1023 = 1.0; a word whose X field is the minimum negative code
    0x400 decodes to x = -1024/1023, a value strictly below -1.0 that is
    displayed as -1.000978: it is neither clamped nor made symmetric. *)
Theorem packed_normal_boundary_codes (word : Z) :
  Normal.decode 0 = (S754_zero false, S754_zero false, S754_zero false) /\
  (Normal.field_bits 0 11 word = 0x3FF ->
   Normal.xInt word = 1023 /\ Normal.x word = Float.of_int 1) /\
  (Normal.field_bits 0 11 word = 0x400 ->
   Normal.xInt word = -1024 /\
   Normal.x word = S754_finite true 8396808 (-23) /\
   Float.nearest_to_ratio (-1024) 1023 (Normal.x word) = true /\
   SFltb (Normal.x word) (Float.of_int (-1)) = true /\
   fixed6 (Normal.x word) = "-1.000978"%string).
Proof.
  split; [vm_compute; reflexivity | ].
  split; intros H; apply sign_extend_field_x in H;
    rewrite x_quotient, H; vm_compute; repeat split; reflexivity.
Qed.

(** The words 0x000003FF and 0xFFFFFC00 carry the two boundary codes. *)
Lemma packed_normal_boundary_codes_witness :
  Normal.x 0x3FF = Float.of_int 1 /\
  fixed6 (Normal.x 0xFFFFFC00) = "-1.000978"%string.
Proof.
  split.
  - apply (proj1 (proj2 (packed_normal_boundary_codes 0x3FF))). reflexivity.
  - apply (proj2 (proj2 (packed_normal_boundary_codes 0xFFFFFC00))). reflexivity.
Defined.

Lemma field_bits_agree P W a b :
  0 <= P -> 0 <= W ->
  Spec.agree_on P (P + W) a b <->
  Normal.field_bits P W a = Normal.field_bits P W b.
Proof.
  intros HP HW. unfold Spec.agree_on, Normal.field_bits. split.
  - intros H. apply Z.bits_inj'. intros i Hi.
    destruct (Z.lt_ge_cases i W).
    + rewrite !Z.mod_pow2_bits_low, !Z.div_pow2_bits by lia. apply H. lia.
    + rewrite !Z.mod_pow2_bits_high by lia. reflexivity.
  - intros H i Hi.
    apply (f_equal (fun v => Z.testbit v (i - P))) in H.
    rewrite !Z.mod_pow2_bits_low, !Z.div_pow2_bits in H by lia.
    replace (i - P + P) with i in H by lia. exact H.
Qed.

Lemma to_u32_agree w : Spec.agree_on 0 32 (Int.to_u32 w) w.
Proof.
  intros i Hi. unfold Int.to_u32. apply Z.mod_pow2_bits_low. lia.
Qed.

Lemma agree_on_sub lo hi lo' hi' a b :
  lo <= lo' -> hi' <= hi -> Spec.agree_on lo hi a b -> Spec.agree_on lo' hi' a b.
Proof. intros ? ? H i Hi. apply H. lia. Qed.

Lemma x_agree a b : Spec.agree_on 0 11 a b -> Normal.x a = Normal.x b.
Proof.
  intros H. apply (field_bits_agree 0 11) in H; try lia.
  rewrite !x_quotient, !xInt_bits, H. reflexivity.
Qed.

Lemma y_agree a b : Spec.agree_on 11 22 a b -> Normal.y a = Normal.y b.
Proof.
  intros H. apply (field_bits_agree 11 11) in H; try lia.
  rewrite !y_quotient, !yInt_bits, H. reflexivity.
Qed.

Lemma z_agree a b : Spec.agree_on 22 32 a b -> Normal.z a = Normal.z b.
Proof.
  intros H. apply (field_bits_agree 22 10) in H; try lia.
  rewrite !z_quotient, !zInt_bits, H. reflexivity.
Qed.

(** C10. Two words that agree on bits [0,11) have the same x output; two
    words that agree on bits [11,22) have the same y output; two words
    that agree on bits [22,32) have the same z output. *)
Theorem packed_normal_fields_independent (w1 w2 : Z) :
  (Spec.agree_on 0 11 w1 w2 -> Normal.x w1 = Normal.x w2) /\
  (Spec.agree_on 11 22 w1 w2 -> Normal.y w1 = Normal.y w2) /\
  (Spec.agree_on 22 32 w1 w2 -> Normal.z w1 = Normal.z w2).
Proof.
  split; [exact (x_agree w1 w2) | ].
  split; [exact (y_agree w1 w2) | exact (z_agree w1 w2)].
Qed.

(** Pairs of words that differ everywhere but in one field. *)
Lemma packed_normal_fields_independent_witness :
  Normal.x 0x000003FF = Normal.x 0xFFFFFBFF /\
  Normal.y 0x00155000 = Normal.y 0xFFD557FF /\
  Normal.z 0x80000000 = Normal.z 0x803FFFFF.
Proof.
  split; [ | split ].
  - apply (proj1 (packed_normal_fields_independent 0x000003FF 0xFFFFFBFF)).
    apply (field_bits_agree 0 11); [lia | lia | reflexivity].
  - apply (proj1 (proj2 (packed_normal_fields_independent 0x00155000 0xFFD557FF))).
    apply (field_bits_agree 11 11); [lia | lia | reflexivity].
  - apply (proj2 (proj2 (packed_normal_fields_independent 0x80000000 0x803FFFFF))).
    apply (field_bits_agree 22 10); [lia | lia | reflexivity].
Defined.

Lemma length_append (a b : string) :
  String.length (a ++ b) = (String.length a + String.length b)%nat.
Proof. induction a as [ | c a IH]; simpl; [reflexivity | rewrite IH; reflexivity]. Qed.

Lemma render_3 a b c :
  render "[%.6f, %.6f, %.6f]" [a; b; c] =
  Some ("[" ++ fixed6 a ++ ", " ++ fixed6 b ++ ", " ++ fixed6 c ++ "]")%string.
Proof. reflexivity. Qed.

Lemma ReadNormal11_11_10_text word :
  ReadNormal11_11_10 (Normal11_11_10ToString.mk word) =
  Some ("[" ++ fixed6 (Normal.x word) ++ ", " ++ fixed6 (Normal.y word) ++ ", "
        ++ fixed6 (Normal.z word) ++ "]")%string.
Proof.
  unfold ReadNormal11_11_10, SPrintf.
  cbn [Normal11_11_10ToString.Value]. rewrite render_3.
  destruct (quotient_ok_inv _ _ (x_ok word)) as (_ & _ & _ & Hx).
  destruct (quotient_ok_inv _ _ (y_ok word)) as (_ & _ & _ & Hy).
  destruct (quotient_ok_inv _ _ (z_ok word)) as (_ & _ & _ & Hz).
  rewrite <- x_quotient in Hx. rewrite <- y_quotient in Hy.
  rewrite <- z_quotient in Hz.
  match goal with |- (if ?c then _ else _) = _ => replace c with true; [reflexivity | ] end.
  symmetry. apply Nat.ltb_lt.
  rewrite !length_append. cbn [String.length]. lia.
Qed.

(** C6. The decoder is a total function of the 32 bits of its input:
    two inputs with the same 32-bit content decode to identical (x, y, z)
    and to the same text; the three outputs are always finite numbers (no
    division fault, no infinity, no NaN) and the display text is always
    produced. *)
Theorem packed_normal_total_deterministic (w1 w2 : Z) :
  Int.to_u32 w1 = Int.to_u32 w2 ->
  Normal.decode w1 = Normal.decode w2 /\
  ReadNormal11_11_10 (Normal11_11_10ToString.mk w1) =
  ReadNormal11_11_10 (Normal11_11_10ToString.mk w2) /\
  (Float.is_finite (Normal.x w1) = true /\
   Float.is_finite (Normal.y w1) = true /\
   Float.is_finite (Normal.z w1) = true) /\
  (exists text, ReadNormal11_11_10 (Normal11_11_10ToString.mk w1) = Some text).
Proof.
  intros H.
  assert (A : Spec.agree_on 0 32 w1 w2).
  { intros i Hi. rewrite <- (to_u32_agree w1 i Hi), <- (to_u32_agree w2 i Hi), H.
    reflexivity. }
  assert (Ex : Normal.x w1 = Normal.x w2)
    by (apply x_agree; revert A; apply agree_on_sub; lia).
  assert (Ey : Normal.y w1 = Normal.y w2)
    by (apply y_agree; revert A; apply agree_on_sub; lia).
  assert (Ez : Normal.z w1 = Normal.z w2)
    by (apply z_agree; revert A; apply agree_on_sub; lia).
  split; [unfold Normal.decode; rewrite Ex, Ey, Ez; reflexivity | ].
  split; [rewrite !ReadNormal11_11_10_text, Ex, Ey, Ez; reflexivity | ].
  split.
  - destruct (quotient_ok_inv _ _ (x_ok w1)) as (_ & _ & Hx & _).
    destruct (quotient_ok_inv _ _ (y_ok w1)) as (_ & _ & Hy & _).
    destruct (quotient_ok_inv _ _ (z_ok w1)) as (_ & _ & Hz & _).
    rewrite x_quotient, y_quotient, z_quotient. repeat split; assumption.
  - eexists. apply ReadNormal11_11_10_text.
Qed.

(** Two integers with the same 32-bit content. *)
Lemma packed_normal_total_deterministic_witness :
  Normal.decode 5 = Normal.decode (5 + 2 ^ 32).
Proof.
  apply (packed_normal_total_deterministic 5 (5 + 2 ^ 32)). reflexivity.
Defined.

(** ** The host stream *)

Lemma read_le_ok n st :
  0 <= cursor st -> cursor st + Z.of_nat n <= FileSize (file st) ->
  read_le n st = Ok (le_at (file st) n (cursor st))
                    (at_cursor st (cursor st + Z.of_nat n)).
Proof.
  intros H0 H1. unfold read_le.
  destruct (Z.leb_spec 0 (cursor st)); [ | lia].
  destruct (Z.leb_spec (cursor st + Z.of_nat n) (FileSize (file st))); [ | lia].
  reflexivity.
Qed.

Lemma read_le_short n st :
  FileSize (file st) < cursor st + Z.of_nat n -> read_le n st = Err PastEndOfFile.
Proof.
  intros H. unfold read_le.
  destruct (Z.leb_spec (cursor st + Z.of_nat n) (FileSize (file st))); [lia | ].
  rewrite andb_false_r. reflexivity.
Qed.

Lemma read_le_inv n st v st' :
  read_le n st = Ok v st' ->
  0 <= cursor st /\ cursor st + Z.of_nat n <= FileSize (file st) /\
  v = le_at (file st) n (cursor st) /\
  st' = at_cursor st (cursor st + Z.of_nat n).
Proof.
  unfold read_le.
  destruct (Z.leb_spec 0 (cursor st));
    destruct (Z.leb_spec (cursor st + Z.of_nat n) (FileSize (file st)));
    cbn [andb]; intros E; inversion E; subst; auto.
Qed.

Lemma FSeek_ok p st :
  0 <= p <= FileSize (file st) ->
  FSeek p st = Ok tt (mkStream (file st) p (p :: seeks st)).
Proof.
  intros H. unfold FSeek.
  destruct (Z.leb_spec 0 p); [ | lia].
  destruct (Z.leb_spec p (FileSize (file st))); [ | lia].
  reflexivity.
Qed.

Lemma FSeek_inv p st u st' :
  FSeek p st = Ok u st' ->
  0 <= p <= FileSize (file st) /\ st' = mkStream (file st) p (p :: seeks st).
Proof.
  unfold FSeek.
  destruct (Z.leb_spec 0 p); destruct (Z.leb_spec p (FileSize (file st)));
    cbn [andb]; intros E; inversion E; subst; auto with zarith.
Qed.

Lemma read_string_ok st text after :
  0 <= cursor st <= FileSize (file st) ->
  Spec.text_from (file st) (cursor st) = Some (text, after) ->
  read_string st = Ok text (at_cursor st after).
Proof.
  intros H E. unfold read_string. unfold Spec.text_from in E.
  destruct (Z.leb_spec 0 (cursor st)); [ | lia].
  destruct (Z.leb_spec (cursor st) (FileSize (file st))); [ | lia].
  cbn [andb]. rewrite E. reflexivity.
Qed.

Lemma read_string_inv st text st' :
  read_string st = Ok text st' ->
  exists after,
    Spec.text_from (file st) (cursor st) = Some (text, after) /\
    st' = at_cursor st after.
Proof.
  unfold read_string, Spec.text_from.
  destruct ((0 <=? cursor st) && (cursor st <=? FileSize (file st)));
    [ | discriminate].
  destruct (text_at _ _ _) as [[s q] | ]; [ | discriminate].
  intros E. inversion E; subst. exists q. auto.
Qed.

(** More fuel does not change a text that was found. *)
Lemma text_at_more_fuel f n m a r :
  text_at f n a = Some r -> (n <= m)%nat -> text_at f m a = Some r.
Proof.
  revert m a r. induction n as [ | n IH]; intros m a r E Hm; [discriminate | ].
  destruct m as [ | m]; [lia | ].
  cbn [text_at] in *.
  destruct (byte_at f a =? 0); [exact E | ].
  destruct (text_at f n (a + 1)) as [[s q] | ] eqn:E1; [ | discriminate].
  rewrite (IH m (a + 1) (s, q) E1) by lia. exact E.
Qed.

(** ** Offset-relative string *)

Lemma StringOffset_parse_zero base st :
  0 <= cursor st -> cursor st + 4 <= FileSize (file st) ->
  le_at (file st) 4 (cursor st) = 0 ->
  StringOffset.parse base st =
  Ok (StringOffset.mk 0 None) (at_cursor st (cursor st + 4)).
Proof.
  intros H0 H1 E. unfold StringOffset.parse, bind, read_u32.
  rewrite (read_le_ok 4) by assumption. rewrite E. reflexivity.
Qed.

Lemma StringOffset_parse_nonzero base st text after :
  0 <= cursor st -> cursor st + 4 <= FileSize (file st) ->
  le_at (file st) 4 (cursor st) <> 0 ->
  Int.add_u32 base (le_at (file st) 4 (cursor st)) <= FileSize (file st) ->
  Spec.text_from (file st) (Int.add_u32 base (le_at (file st) 4 (cursor st)))
  = Some (text, after) ->
  StringOffset.parse base st =
  Ok (StringOffset.mk (le_at (file st) 4 (cursor st)) (Some text))
     (mkStream (file st) (Int.to_u32 (cursor st + 4))
        (Int.to_u32 (cursor st + 4)
         :: Int.add_u32 base (le_at (file st) 4 (cursor st)) :: seeks st)).
Proof.
  intros H0 H1 Hoff Ht E. unfold StringOffset.parse, bind, read_u32.
  rewrite (read_le_ok 4) by assumption.
  set (off := le_at (file st) 4 (cursor st)) in *.
  destruct (Z.eqb_spec off 0) as [ | _]; [contradiction | ].
  unfold FTell, at_cursor. cbn [negb cursor file seeks].
  pose proof (to_u32_range (base + off)) as Hr. fold (Int.add_u32 base off) in Hr.
  rewrite FSeek_ok by (cbn [file]; lia).
  erewrite read_string_ok; [ | cbn [cursor file]; lia | cbn [cursor file]; exact E].
  unfold at_cursor. cbn [file cursor seeks].
  pose proof (to_u32_range (cursor st + 4)).
  assert (Int.to_u32 (cursor st + 4) <= cursor st + 4)
    by (unfold Int.to_u32; apply Z.mod_le; lia).
  rewrite FSeek_ok by (cbn [file]; change (Z.of_nat 4) with 4; lia).
  reflexivity.
Qed.

Lemma StringOffset_parse_inv base st r st' :
  StringOffset.parse base st = Ok r st' ->
  0 <= cursor st /\ cursor st + 4 <= FileSize (file st) /\
  StringOffset.Offset r = le_at (file st) 4 (cursor st) /\
  (StringOffset.Offset r = 0 ->
   StringOffset.Value r = None /\ st' = at_cursor st (cursor st + 4)) /\
  (StringOffset.Offset r <> 0 ->
   exists text after,
     Spec.text_from (file st) (Int.add_u32 base (StringOffset.Offset r))
     = Some (text, after) /\
     StringOffset.Value r = Some text /\
     st' = mkStream (file st) (Int.to_u32 (cursor st + 4))
             (Int.to_u32 (cursor st + 4)
              :: Int.add_u32 base (StringOffset.Offset r) :: seeks st)).
Proof.
  unfold StringOffset.parse, bind, read_u32.
  destruct (read_le 4 st) as [off st1 | e] eqn:E1; [ | discriminate].
  apply read_le_inv in E1. destruct E1 as (H0 & H1 & -> & ->).
  change (Z.of_nat 4) with 4 in *.
  set (off := le_at (file st) 4 (cursor st)).
  destruct (Z.eqb_spec off 0) as [E0 | N0]; cbn [negb].
  - intros E. inversion E; subst. cbn [StringOffset.Offset StringOffset.Value].
    split; [assumption | ]. split; [assumption | ]. split; [reflexivity | ].
    split; [intros _; split; reflexivity | intros N; contradiction].
  - unfold FTell, at_cursor. cbn [cursor file seeks].
    destruct (FSeek _ _) as [u st2 | e] eqn:E2; [ | discriminate].
    apply FSeek_inv in E2. destruct E2 as (Ht & ->).
    destruct (read_string _) as [text st3 | e] eqn:E3; [ | discriminate].
    apply read_string_inv in E3. destruct E3 as (after & Et & ->).
    unfold at_cursor in *. cbn [cursor file seeks] in *.
    destruct (FSeek _ _) as [u' st4 | e] eqn:E4; [ | discriminate].
    apply FSeek_inv in E4. destruct E4 as (Hr & ->).
    cbn [file seeks] in *.
    intros E. inversion E; subst. cbn [StringOffset.Offset StringOffset.Value].
    split; [assumption | ]. split; [assumption | ]. split; [reflexivity | ].
    split; [intros Z0; contradiction | ].
    intros _. exists text, after. auto.
Qed.

(** C5. A record read with Offset = 0 stops after the 4-byte offset
    field: no seek is performed, the Value field is absent, and the cursor
    is 4 bytes past the start of the record.  Such a record is read
    whenever 4 zero bytes are left at the cursor. *)
Theorem offset_string_zero_offset (base : Z) (st : Stream) :
  (forall r st',
     StringOffset.parse base st = Ok r st' -> StringOffset.Offset r = 0 ->
     StringOffset.Value r = None /\
     seeks st' = seeks st /\
     cursor st' = cursor st + 4 /\
     file st' = file st) /\
  (0 <= cursor st -> cursor st + 4 <= FileSize (file st) ->
   le_at (file st) 4 (cursor st) = 0 ->
   exists st', StringOffset.parse base st = Ok (StringOffset.mk 0 None) st').
Proof.
  split.
  - intros r st' E Z0. apply StringOffset_parse_inv in E.
    destruct E as (_ & _ & _ & H & _). destruct (H Z0) as (HV & ->).
    auto.
  - intros H0 H1 E. eexists. apply StringOffset_parse_zero; assumption.
Qed.

(** The record at address 4 of the sample table has offset 0. *)
Lemma offset_string_zero_offset_witness :
  exists st', StringOffset.parse 16 (mkStream Example.table 4 []) =
              Ok (StringOffset.mk 0 None) st' /\
    seeks st' = [] /\ cursor st' = 8.
Proof.
  destruct (proj2 (offset_string_zero_offset 16 (mkStream Example.table 4 [])))
    as (st' & E); [vm_compute; discriminate | vm_compute; discriminate
                   | reflexivity | ].
  exists st'. split; [exact E | ].
  destruct (proj1 (offset_string_zero_offset 16 (mkStream Example.table 4 []))
              _ _ E eq_refl) as (_ & Hs & Hc & _).
  split; assumption.
Defined.

(** C4, amended. A record read with Offset <> 0 from base B at cursor S
    seeks to (B + Offset) mod 2^32, reads the terminated text there, and
    seeks back to (S + 4) mod 2^32, the cursor position it saved in a
    32-bit local; so the cursor ends at S + 4 whenever S + 4 < 2^32,
    wherever the text lived.  Such a record is read whenever the offset
    field, the seek target and a terminated text are inside the stream. *)
Theorem offset_string_cursor_restored (base : Z) (st : Stream) :
  (forall r st',
     StringOffset.parse base st = Ok r st' -> StringOffset.Offset r <> 0 ->
     (exists text after,
        Spec.text_from (file st) (Int.add_u32 base (StringOffset.Offset r))
        = Some (text, after) /\
        StringOffset.Value r = Some text) /\
     seeks st' = Int.to_u32 (cursor st + 4)
                 :: Int.add_u32 base (StringOffset.Offset r) :: seeks st /\
     cursor st' = Int.to_u32 (cursor st + 4) /\
     (cursor st + 4 < 2 ^ 32 -> cursor st' = cursor st + 4) /\
     file st' = file st) /\
  (forall text after,
     0 <= cursor st -> cursor st + 4 <= FileSize (file st) ->
     le_at (file st) 4 (cursor st) <> 0 ->
     Int.add_u32 base (le_at (file st) 4 (cursor st)) <= FileSize (file st) ->
     Spec.text_from (file st)
       (Int.add_u32 base (le_at (file st) 4 (cursor st))) = Some (text, after) ->
     exists st',
       StringOffset.parse base st =
       Ok (StringOffset.mk (le_at (file st) 4 (cursor st)) (Some text)) st').
Proof.
  split.
  - intros r st' E N0. apply StringOffset_parse_inv in E.
    destruct E as (H0 & _ & _ & _ & H).
    destruct (H N0) as (text & after & Et & HV & ->).
    cbn [seeks cursor file].
    split; [exists text, after; auto | ].
    split; [reflexivity | ]. split; [reflexivity | ].
    split; [ | reflexivity].
    intros Hs. apply to_u32_small. lia.
  - intros text after H0 H1 N0 Ht E. eexists.
    apply (StringOffset_parse_nonzero base st text after); assumption.
Qed.

(** The record at address 12 of the sample table, read with base 4,
    refers to the text at 8. *)
Lemma offset_string_cursor_restored_witness :
  exists r st', StringOffset.parse 4 (mkStream Example.table 12 []) = Ok r st' /\
    StringOffset.Value r = Some "Hi"%string /\
    seeks st' = [16; 8] /\ cursor st' = 12 + 4.
Proof.
  destruct (proj2 (offset_string_cursor_restored 4
                     (mkStream Example.table 12 [])) "Hi"%string 11)
    as (st' & E);
    [vm_compute; discriminate | vm_compute; discriminate
     | vm_compute; discriminate | vm_compute; discriminate | reflexivity | ].
  eexists. exists st'. split; [exact E | ].
  destruct (proj1 (offset_string_cursor_restored 4
                     (mkStream Example.table 12 [])) _ _ E)
    as (_ & Hs & _ & Hc & _); [vm_compute; discriminate | ].
  split; [reflexivity | ]. split; [exact Hs | ].
  apply Hc. reflexivity.
Defined.

(** C4 as stated fails twice.  With base 16 and Offset 0xFFFFFFF8 the
    u32 sum [base + Offset] wraps: the text is read at 8, and no seek to
    16 + 4294967288 takes place.  With the record in the last four bytes
    below 2^32, the cursor position 2^32 is saved in the u32 [returnPos]
    as 0, and the cursor ends at 0 instead of S + 4. *)
Lemma offset_string_cursor_restored_counterexample :
  (exists r st',
     StringOffset.parse 16 (mkStream Example.table 0 []) = Ok r st' /\
     StringOffset.Offset r = 0xFFFFFFF8 /\
     StringOffset.Value r = Some "Hi"%string /\
     seeks st' = [4; 8] /\
     ~ In (16 + StringOffset.Offset r) (seeks st')) /\
  (exists r st',
     StringOffset.parse 0 (mkStream Example.huge (2 ^ 32 - 4) []) = Ok r st' /\
     StringOffset.Offset r = 8 /\
     cursor st' = 0 /\
     cursor st' <> (2 ^ 32 - 4) + 4).
Proof.
  split.
  - eexists. eexists. split; [vm_compute; reflexivity | ].
    cbn [StringOffset.Offset StringOffset.Value seeks].
    repeat split. intros [H | [H | []]]; discriminate H.
  - eexists. eexists. split.
    + apply (StringOffset_parse_nonzero 0 (mkStream Example.huge (2 ^ 32 - 4) [])
               "A"%string 10).
      * cbn [cursor]. lia.
      * cbn [cursor file Example.huge FileSize]. lia.
      * vm_compute. discriminate.
      * vm_compute. discriminate.
      * cbn [cursor file].
        change (Int.add_u32 0 (le_at Example.huge 4 (2 ^ 32 - 4))) with 8.
        unfold Spec.text_from.
        apply (text_at_more_fuel Example.huge 2); [vm_compute; reflexivity | ].
        change (FileSize Example.huge) with (2 ^ 32 + 16). lia.
    + cbn [StringOffset.Offset cursor].
      split; [vm_compute; reflexivity | ].
      split; [vm_compute; reflexivity | ].
      vm_compute. discriminate.
Qed.

(** C9, amended. The display function returns the empty string when
    Offset is 0, and otherwise returns the Value field unchanged, which
    for a decoded record is the text read at (base + Offset) mod 2^32 and
    may itself be empty; a non-empty result implies Offset <> 0. *)
Theorem offset_string_display
  (value : StringOffset.t) (base : Z) (st st' : Stream) :
  (StringOffset.Offset value = 0 ->
   StringOffsetToString value = Some EmptyString) /\
  (StringOffset.Offset value <> 0 ->
   StringOffsetToString value = StringOffset.Value value) /\
  (StringOffset.parse base st = Ok value st' ->
   StringOffset.Offset value <> 0 ->
   exists text after,
     Spec.text_from (file st) (Int.add_u32 base (StringOffset.Offset value))
     = Some (text, after) /\
     StringOffsetToString value = Some text) /\
  (StringOffsetToString value <> Some EmptyString ->
   StringOffset.Offset value <> 0).
Proof.
  unfold StringOffsetToString.
  destruct (Z.eqb_spec (StringOffset.Offset value) 0) as [E0 | N0].
  - split; [reflexivity | ]. split; [intros N; contradiction | ].
    split; [intros _ N; contradiction | intros N; contradiction].
  - split; [intros Z0; contradiction | ]. split; [reflexivity | ].
    split; [ | intros _; assumption].
    intros E _. apply StringOffset_parse_inv in E.
    destruct E as (_ & _ & _ & _ & H).
    destruct (H N0) as (text & after & Et & HV & _).
    exists text, after. auto.
Qed.

(** The record at address 12 of the sample table, read with base 4. *)
Lemma offset_string_display_witness :
  exists value st',
    StringOffset.parse 4 (mkStream Example.table 12 []) = Ok value st' /\
    StringOffsetToString value = Some "Hi"%string.
Proof.
  eexists. eexists. split; [vm_compute; reflexivity | ].
  rewrite (proj1 (proj2 (offset_string_display
                           (StringOffset.mk 4 (Some "Hi"%string)) 4
                           (mkStream Example.table 12 [])
                           (mkStream Example.table 16 [16; 8]))));
    [reflexivity | vm_compute; discriminate].
Defined.

(** C9 as stated fails: the record at address 12 of the sample table,
    read with base 12, has Offset 4 and refers to an empty text, so it is
    displayed as the empty string although its Offset is not 0. *)
Lemma offset_string_display_counterexample :
  exists value st',
    StringOffset.parse 12 (mkStream Example.table 12 []) = Ok value st' /\
    StringOffset.Offset value = 4 /\
    StringOffsetToString value = Some EmptyString /\
    ~ (StringOffsetToString value = Some EmptyString <->
       StringOffset.Offset value = 0).
Proof.
  eexists. eexists. split; [vm_compute; reflexivity | ].
  split; [reflexivity | ]. split; [reflexivity | ].
  intros [H _]. specialize (H eq_refl). discriminate H.
Qed.

(** ** Struct layouts *)

Lemma reads_le n : Spec.reads (read_le n) (Z.of_nat n) (fun f a => le_at f n a).
Proof.
  intros st H0. split; intros H.
  - apply read_le_ok; assumption.
  - apply read_le_short; assumption.
Qed.

Lemma reads_map {A B} (p : M A) (g : A -> B) w v :
  Spec.reads p w v ->
  Spec.reads (bind p (fun a => ret (g a))) w (fun f a => g (v f a)).
Proof.
  intros Hp st H0. unfold bind. destruct (Hp st H0) as [Hp1 Hp2].
  split; intros H.
  - rewrite (Hp1 H). reflexivity.
  - rewrite (Hp2 H). reflexivity.
Qed.

Lemma reads_bind {A B} (p : M A) (k : A -> M B) w1 w2 v1 v2 :
  0 <= w1 -> 0 <= w2 ->
  Spec.reads p w1 v1 -> (forall a, Spec.reads (k a) w2 (v2 a)) ->
  Spec.reads (bind p k) (w1 + w2) (fun f a => v2 (v1 f a) f (a + w1)).
Proof.
  intros Hw1 Hw2 Hp Hk st H0. unfold bind.
  destruct (Hp st H0) as [Hp1 Hp2].
  destruct (Z.le_gt_cases (cursor st + w1) (FileSize (file st))) as [L | G].
  - rewrite (Hp1 L).
    destruct (Hk (v1 (file st) (cursor st)) (at_cursor st (cursor st + w1)))
      as [Hk1 Hk2]; [cbn [at_cursor cursor]; lia | ].
    unfold at_cursor in *. cbn [file cursor seeks] in *.
    split; intros H.
    + rewrite Hk1 by lia. do 2 f_equal. lia.
    + apply Hk2. lia.
  - rewrite (Hp2 G). split; intros H; [lia | reflexivity].
Qed.

Lemma reads_ext {A} (p : M A) w w' v v' :
  w = w' -> (forall f a, v f a = v' f a) -> Spec.reads p w v -> Spec.reads p w' v'.
Proof.
  intros <- Hv H st H0. rewrite <- Hv. apply H. assumption.
Qed.
Lemma reads_f32 : Spec.reads read_f32 4 Spec.f32_at.
Proof. exact (reads_map (read_le 4) Float.f32_of_bits _ _ (reads_le 4)). Qed.

Lemma reads_f16 : Spec.reads read_f16 2 Spec.f16_at.
Proof. exact (reads_map (read_le 2) Float.f16_of_bits _ _ (reads_le 2)). Qed.

Lemma reads_u32 : Spec.reads read_u32 4 (fun f a => le_at f 4 a).
Proof. exact (reads_le 4). Qed.

Ltac same_layout := intros f a; cbv beta; rewrite <- ?Z.add_assoc; reflexivity.

Lemma reads_Vector2 :
  Spec.reads Vector2.parse 8
    (fun f a => Vector2.mk (Spec.f32_at f a) (Spec.f32_at f (a + 4))).
Proof.
  unfold Vector2.parse.
  apply (reads_bind read_f32 _ 4 4 Spec.f32_at
           (fun X f a => Vector2.mk X (Spec.f32_at f a)));
    [lia | lia | apply reads_f32 | intro X].
  apply (reads_map read_f32 (Vector2.mk X) 4 Spec.f32_at reads_f32).
Qed.

Lemma reads_Vector2Half :
  Spec.reads Vector2Half.parse 4
    (fun f a => Vector2Half.mk (Spec.f16_at f a) (Spec.f16_at f (a + 2))).
Proof.
  unfold Vector2Half.parse.
  apply (reads_bind read_f16 _ 2 2 Spec.f16_at
           (fun X f a => Vector2Half.mk X (Spec.f16_at f a)));
    [lia | lia | apply reads_f16 | intro X].
  apply (reads_map read_f16 (Vector2Half.mk X) 2 Spec.f16_at reads_f16).
Qed.

Lemma reads_Vector3 :
  Spec.reads Vector3.parse 12
    (fun f a => Vector3.mk (Spec.f32_at f a) (Spec.f32_at f (a + 4))
                           (Spec.f32_at f (a + 8))).
Proof.
  unfold Vector3.parse.
  apply (reads_ext _ (4 + (4 + 4)) _
           (fun f a => Vector3.mk (Spec.f32_at f a) (Spec.f32_at f (a + 4))
                                  (Spec.f32_at f (a + 4 + 4))));
    [reflexivity | same_layout | ].
  apply (reads_bind read_f32 _ 4 (4 + 4) Spec.f32_at
           (fun X f a => Vector3.mk X (Spec.f32_at f a) (Spec.f32_at f (a + 4))));
    [lia | lia | apply reads_f32 | intro X].
  apply (reads_bind read_f32 _ 4 4 Spec.f32_at
           (fun Y f a => Vector3.mk X Y (Spec.f32_at f a)));
    [lia | lia | apply reads_f32 | intro Y].
  apply (reads_map read_f32 (Vector3.mk X Y) 4 Spec.f32_at reads_f32).
Qed.

Lemma reads_Vector4 :
  Spec.reads Vector4.parse 16
    (fun f a => Vector4.mk (Spec.f32_at f a) (Spec.f32_at f (a + 4))
                           (Spec.f32_at f (a + 8)) (Spec.f32_at f (a + 12))).
Proof.
  unfold Vector4.parse.
  apply (reads_ext _ (4 + (4 + (4 + 4))) _
           (fun f a => Vector4.mk (Spec.f32_at f a) (Spec.f32_at f (a + 4))
                         (Spec.f32_at f (a + 4 + 4))
                         (Spec.f32_at f (a + 4 + 4 + 4))));
    [reflexivity | same_layout | ].
  apply (reads_bind read_f32 _ 4 (4 + (4 + 4)) Spec.f32_at
           (fun X f a => Vector4.mk X (Spec.f32_at f a) (Spec.f32_at f (a + 4))
                           (Spec.f32_at f (a + 4 + 4))));
    [lia | lia | apply reads_f32 | intro X].
  apply (reads_bind read_f32 _ 4 (4 + 4) Spec.f32_at
           (fun Y f a => Vector4.mk X Y (Spec.f32_at f a) (Spec.f32_at f (a + 4))));
    [lia | lia | apply reads_f32 | intro Y].
  apply (reads_bind read_f32 _ 4 4 Spec.f32_at
           (fun Z0 f a => Vector4.mk X Y Z0 (Spec.f32_at f a)));
    [lia | lia | apply reads_f32 | intro Z0].
  apply (reads_map read_f32 (Vector4.mk X Y Z0) 4 Spec.f32_at reads_f32).
Qed.

Lemma reads_BoundingBox :
  Spec.reads BoundingBox.parse 24
    (fun f a =>
       BoundingBox.mk
         (Vector3.mk (Spec.f32_at f a) (Spec.f32_at f (a + 4))
                     (Spec.f32_at f (a + 8)))
         (Vector3.mk (Spec.f32_at f (a + 12)) (Spec.f32_at f (a + 16))
                     (Spec.f32_at f (a + 20)))).
Proof.
  unfold BoundingBox.parse.
  eapply reads_ext; cycle 2.
  - apply (reads_bind Vector3.parse _ 12 12 (fun f a => Vector3.mk (Spec.f32_at f a) (Spec.f32_at f (a + 4)) (Spec.f32_at f (a + 8)))
             (fun Min f a =>
                BoundingBox.mk Min
                  (Vector3.mk (Spec.f32_at f a) (Spec.f32_at f (a + 4))
                              (Spec.f32_at f (a + 8)))));
      [lia | lia | apply reads_Vector3 | intro Min].
    apply (reads_map Vector3.parse (BoundingBox.mk Min) 12 (fun f a => Vector3.mk (Spec.f32_at f a) (Spec.f32_at f (a + 4)) (Spec.f32_at f (a + 8))) reads_Vector3).
  - reflexivity.
  - same_layout.
Qed.

Lemma reads_BoundingSphere :
  Spec.reads BoundingSphere.parse 16
    (fun f a =>
       BoundingSphere.mk
         (Vector3.mk (Spec.f32_at f a) (Spec.f32_at f (a + 4))
                     (Spec.f32_at f (a + 8)))
         (Spec.f32_at f (a + 12))).
Proof.
  unfold BoundingSphere.parse.
  apply (reads_bind Vector3.parse _ 12 4 (fun f a => Vector3.mk (Spec.f32_at f a) (Spec.f32_at f (a + 4)) (Spec.f32_at f (a + 8)))
           (fun Center f a => BoundingSphere.mk Center (Spec.f32_at f a)));
    [lia | lia | apply reads_Vector3 | intro Center].
  apply (reads_map read_f32 (BoundingSphere.mk Center) 4 Spec.f32_at reads_f32).
Qed.

Lemma reads_Normal11_11_10 :
  Spec.reads Normal11_11_10ToString.parse 4
    (fun f a => Normal11_11_10ToString.mk (le_at f 4 a)).
Proof.
  exact (reads_map read_u32 Normal11_11_10ToString.mk 4 _ reads_u32).
Qed.

(** C8. Each struct reads its fields in the declared order, each at the
    address right after the previous one, little-endian: Vector2 is f32 X,
    f32 Y (8 bytes); Vector3 is f32 X, Y, Z (12 bytes); Vector4 is f32 X,
    Y, Z, W (16 bytes); Vector2Half is f16 X, f16 Y (4 bytes); BoundingBox
    is Vector3 Min, Vector3 Max (24 bytes); BoundingSphere is Vector3
    Center, f32 Radius (16 bytes); the packed normal is one u32 (4 bytes).
    A read succeeds exactly when that many bytes are left. *)
Theorem struct_wire_layouts :
  Spec.reads Vector2.parse 8
    (fun f a => Vector2.mk (Spec.f32_at f a) (Spec.f32_at f (a + 4))) /\
  Spec.reads Vector3.parse 12
    (fun f a => Vector3.mk (Spec.f32_at f a) (Spec.f32_at f (a + 4))
                           (Spec.f32_at f (a + 8))) /\
  Spec.reads Vector4.parse 16
    (fun f a => Vector4.mk (Spec.f32_at f a) (Spec.f32_at f (a + 4))
                           (Spec.f32_at f (a + 8)) (Spec.f32_at f (a + 12))) /\
  Spec.reads Vector2Half.parse 4
    (fun f a => Vector2Half.mk (Spec.f16_at f a) (Spec.f16_at f (a + 2))) /\
  Spec.reads BoundingBox.parse 24
    (fun f a =>
       BoundingBox.mk
         (Vector3.mk (Spec.f32_at f a) (Spec.f32_at f (a + 4))
                     (Spec.f32_at f (a + 8)))
         (Vector3.mk (Spec.f32_at f (a + 12)) (Spec.f32_at f (a + 16))
                     (Spec.f32_at f (a + 20)))) /\
  Spec.reads BoundingSphere.parse 16
    (fun f a =>
       BoundingSphere.mk
         (Vector3.mk (Spec.f32_at f a) (Spec.f32_at f (a + 4))
                     (Spec.f32_at f (a + 8)))
         (Spec.f32_at f (a + 12))) /\
  Spec.reads Normal11_11_10ToString.parse 4
    (fun f a => Normal11_11_10ToString.mk (le_at f 4 a)).
Proof.
  split; [exact reads_Vector2 | ].
  split; [exact reads_Vector3 | ].
  split; [exact reads_Vector4 | ].
  split; [exact reads_Vector2Half | ].
  split; [exact reads_BoundingBox | ].
  split; [exact reads_BoundingSphere | exact reads_Normal11_11_10].
Qed.

(** The bytes 00 00 80 3F 00 00 00 40 are the Vector2 (1.0, 2.0); a
    BoundingBox does not fit the 20 bytes left after address 4. *)
Lemma struct_wire_layouts_witness :
  Vector2.parse (mkStream Example.floats 0 []) =
  Ok (Vector2.mk (Float.of_int 1) (Float.of_int 2))
     (mkStream Example.floats 8 []) /\
  BoundingBox.parse (mkStream Example.floats 4 []) = Err PastEndOfFile.
Proof.
  split.
  - apply (proj1 (proj1 struct_wire_layouts (mkStream Example.floats 0 []) ltac:(cbn; lia))).
    vm_compute. discriminate.
  - apply (proj2 (proj1 (proj2 (proj2 (proj2 (proj2 struct_wire_layouts))))
                   (mkStream Example.floats 4 []) ltac:(cbn; lia))).
    vm_compute. reflexivity.
Defined.

(** ** Display texts *)



Lemma length_frac6 r : String.length (frac6 r) = 6%nat.
Proof. reflexivity. Qed.









Lemma append_empty_r (s : string) : (s ++ EmptyString)%string = s.
Proof. induction s as [ | c s IH]; cbn [append]; [ | rewrite IH]; reflexivity. Qed.

Lemma BoundingSphereToString_text v :
  BoundingSphereToString v =
  Spec.buffered ("[" ++ fixed6 (Vector3.X (BoundingSphere.Center v)) ++ ", "
                 ++ fixed6 (Vector3.Y (BoundingSphere.Center v)) ++ ", "
                 ++ fixed6 (Vector3.Z (BoundingSphere.Center v)) ++ "] "
                 ++ fixed6 (BoundingSphere.Radius v))%string.
Proof.
  rewrite <- (append_empty_r (fixed6 (BoundingSphere.Radius v))) at 1.
  reflexivity.
Qed.


(** * Further properties *)

(** ** Packed normal: re-encoding, order, bounds and symmetry *)

Lemma quotient_fits_11 : forallb (Codec.quotient_fits 11 1023) (Spec.codes 11) = true.
Proof. vm_compute. reflexivity. Qed.

Lemma quotient_fits_10 : forallb (Codec.quotient_fits 10 511) (Spec.codes 10) = true.
Proof. vm_compute. reflexivity. Qed.

Lemma quotient_fits_inv W d n :
  Codec.quotient_fits W d n = true ->
  Codec.code_of d (Spec.quotient d n) = n /\
  SFleb (Spec.quotient d n) (Float.of_int 1) = true /\
  SFleb (Spec.quotient d (- 2 ^ (W - 1))) (Spec.quotient d n) = true /\
  SFltb (Spec.quotient d n) (Float.of_int (-1)) = (n =? - 2 ^ (W - 1)) /\
  SFltb (Spec.quotient d n) (Float.of_int 0) = (n <? 0) /\
  (n <> 0 -> n <> - 2 ^ (W - 1) ->
   Codec.same (Spec.quotient d (- n)) (SFopp (Spec.quotient d n)) = true).
Proof.
  unfold Codec.quotient_fits. rewrite !andb_true_iff, !orb_true_iff.
  rewrite !Bool.eqb_true_iff, !Z.eqb_eq.
  intros (((((H1 & H2) & H3) & H4) & H5) & H6).
  repeat (split; [assumption | ]).
  intros N0 Nm. destruct H6 as [[H6 | H6] | H6]; [contradiction | contradiction | exact H6].
Qed.

Lemma x_fits w : Codec.quotient_fits 11 1023 (Normal.xInt w) = true.
Proof. apply (forall_codes _ 11); [lia | exact quotient_fits_11 | apply xInt_range]. Qed.

Lemma y_fits w : Codec.quotient_fits 11 1023 (Normal.yInt w) = true.
Proof. apply (forall_codes _ 11); [lia | exact quotient_fits_11 | apply yInt_range]. Qed.

Lemma z_fits w : Codec.quotient_fits 10 511 (Normal.zInt w) = true.
Proof. apply (forall_codes _ 10); [lia | exact quotient_fits_10 | apply zInt_range]. Qed.


Lemma sign_extend_mod W u :
  0 < W -> 0 <= u < 2 ^ W -> Normal.sign_extend W u mod 2 ^ W = u.
Proof.
  intros HW Hu. unfold Normal.sign_extend.
  destruct (Z.ltb_spec u (2 ^ (W - 1))).
  - apply Z.mod_small. lia.
  - replace (u - 2 ^ W) with (u + (-1) * 2 ^ W) by lia.
    rewrite Z.mod_add by lia. apply Z.mod_small. lia.
Qed.

Lemma fields_make_word w :
  0 <= w < 2 ^ 32 ->
  Normal.field_bits 0 11 w + 2 ^ 11 * Normal.field_bits 11 11 w
  + 2 ^ 22 * Normal.field_bits 22 10 w = w.
Proof.
  intros Hw. unfold Normal.field_bits.
  change (2 ^ 0) with 1. rewrite Z.div_1_r.
  change (2 ^ 11) with 2048. change (2 ^ 22) with 4194304.
  change (2 ^ 10) with 1024. change (2 ^ 32) with 4294967296 in Hw.
  pose proof (Z.div_mod w 2048 ltac:(lia)).
  pose proof (Z.mod_pos_bound w 2048 ltac:(lia)).
  pose proof (Z.div_mod (w / 2048) 2048 ltac:(lia)).
  pose proof (Z.mod_pos_bound (w / 2048) 2048 ltac:(lia)).
  assert (E : w / 4194304 = w / 2048 / 2048)
    by (rewrite Z.div_div by lia; reflexivity).
  rewrite E.
  assert (0 <= w / 2048 / 2048 < 1024).
  { split; [apply Z.div_pos; [apply Z.div_pos | ]; lia | ].
    apply Z.div_lt_upper_bound; [lia | ].
    apply Z.div_lt_upper_bound; lia. }
  rewrite (Z.mod_small (w / 2048 / 2048) 1024) by lia. lia.
Qed.

Lemma code_of_x w : Codec.code_of 1023 (Normal.x w) = Normal.xInt w.
Proof. rewrite x_quotient. apply (quotient_fits_inv 11), x_fits. Qed.

Lemma code_of_y w : Codec.code_of 1023 (Normal.y w) = Normal.yInt w.
Proof. rewrite y_quotient. apply (quotient_fits_inv 11), y_fits. Qed.

Lemma code_of_z w : Codec.code_of 511 (Normal.z w) = Normal.zInt w.
Proof. rewrite z_quotient. apply (quotient_fits_inv 10), z_fits. Qed.

Lemma pack_decode w : 0 <= w < 2 ^ 32 -> Codec.pack (Normal.decode w) = w.
Proof.
  intros Hw. unfold Codec.pack, Normal.decode.
  rewrite code_of_x, code_of_y, code_of_z, xInt_bits, yInt_bits, zInt_bits.
  rewrite !sign_extend_mod by (try lia; apply field_bits_range; lia).
  apply fields_make_word. exact Hw.
Qed.

(** X1. Rounding [x * 1023], [y * 1023] and [z * 511] to the nearest
    integer gives back the three signed fields, and packing these codes
    gives back the 32-bit word: the decoder loses nothing. *)
Theorem packed_normal_reencoded (w : Z) :
  0 <= w < 2 ^ 32 ->
  Codec.code_of 1023 (Normal.x w) = Normal.xInt w /\
  Codec.code_of 1023 (Normal.y w) = Normal.yInt w /\
  Codec.code_of 511 (Normal.z w) = Normal.zInt w /\
  Codec.pack (Normal.decode w) = w.
Proof.
  intros Hw.
  split; [apply code_of_x | ]. split; [apply code_of_y | ].
  split; [apply code_of_z | apply pack_decode; exact Hw].
Qed.

(** A word with a code in each field. *)
Lemma packed_normal_reencoded_witness : Codec.pack (Normal.decode 0x801003FF) = 0x801003FF.
Proof. apply (packed_normal_reencoded 0x801003FF). lia. Defined.

(** X2. Two different 32-bit words never decode to the same (x, y, z). *)
Theorem packed_normal_decode_injective (w1 w2 : Z) :
  0 <= w1 < 2 ^ 32 -> 0 <= w2 < 2 ^ 32 -> w1 <> w2 ->
  Normal.decode w1 <> Normal.decode w2.
Proof.
  intros H1 H2 N E. apply N.
  rewrite <- (pack_decode w1 H1), <- (pack_decode w2 H2), E. reflexivity.
Qed.

(** The maximum and the minimum code of the X field. *)
Lemma packed_normal_decode_injective_witness : Normal.decode 0x3FF <> Normal.decode 0x400.
Proof. apply (packed_normal_decode_injective 0x3FF 0x400); lia. Defined.

Lemma negative_code_sign_bit P W w :
  0 <= P -> 0 < W ->
  (Normal.sign_extend W (Normal.field_bits P W w) <? 0) = Z.testbit w (P + W - 1).
Proof.
  intros HP HW. unfold Normal.sign_extend.
  pose proof (field_bits_range P W w ltac:(lia)) as Hr.
  pose proof (pow2_double W HW) as EW.
  assert (Hp : 0 < 2 ^ (W - 1)) by (apply Z.pow_pos_nonneg; lia).
  assert (Eb : Z.testbit w (P + W - 1)
               = Z.testbit (Normal.field_bits P W w) (W - 1)).
  { unfold Normal.field_bits.
    rewrite Z.mod_pow2_bits_low, Z.div_pow2_bits by lia.
    f_equal. lia. }
  rewrite Eb. set (u := Normal.field_bits P W w) in *.
  destruct (Z.testbit u (W - 1)) eqn:Et.
  - apply Z.testbit_true in Et; [ | lia].
    assert (2 ^ (W - 1) <= u).
    { destruct (Z.lt_ge_cases u (2 ^ (W - 1))) as [L | G]; [ | exact G].
      rewrite Z.div_small in Et by lia. discriminate Et. }
    destruct (Z.ltb_spec u (2 ^ (W - 1))); [lia | ]. apply Z.ltb_lt. lia.
  - destruct (Z.ltb_spec u (2 ^ (W - 1))) as [L | G].
    + apply Z.ltb_ge. lia.
    + exfalso.
      assert (Et' : Z.testbit u (W - 1) = true).
      { apply Z.testbit_true; [lia | ].
        assert (E1 : u / 2 ^ (W - 1) = 1)
          by (symmetry; apply Z.div_unique with (r := u - 2 ^ (W - 1)); lia).
        rewrite E1. reflexivity. }
      congruence.
Qed.

(** X3. Every output is at most 1.0 and at least the value of the minimum
    code (-1024/1023 for x and y, -512/511 for z); it is below -1.0 only
    for the minimum code; and it is negative exactly when the top bit of
    its field (bit 10, 21 or 31 of the word) is set. *)
Theorem packed_normal_output_bounds (w : Z) :
  (SFleb (Normal.x w) (Float.of_int 1) = true /\
   SFleb (Spec.quotient 1023 (-1024)) (Normal.x w) = true /\
   SFltb (Normal.x w) (Float.of_int (-1)) = (Normal.xInt w =? -1024) /\
   SFltb (Normal.x w) (Float.of_int 0) = Z.testbit w 10) /\
  (SFleb (Normal.y w) (Float.of_int 1) = true /\
   SFleb (Spec.quotient 1023 (-1024)) (Normal.y w) = true /\
   SFltb (Normal.y w) (Float.of_int (-1)) = (Normal.yInt w =? -1024) /\
   SFltb (Normal.y w) (Float.of_int 0) = Z.testbit w 21) /\
  (SFleb (Normal.z w) (Float.of_int 1) = true /\
   SFleb (Spec.quotient 511 (-512)) (Normal.z w) = true /\
   SFltb (Normal.z w) (Float.of_int (-1)) = (Normal.zInt w =? -512) /\
   SFltb (Normal.z w) (Float.of_int 0) = Z.testbit w 31).
Proof.
  destruct (quotient_fits_inv _ _ _ (x_fits w)) as (_ & X1 & X2 & X3 & X4 & _).
  destruct (quotient_fits_inv _ _ _ (y_fits w)) as (_ & Y1 & Y2 & Y3 & Y4 & _).
  destruct (quotient_fits_inv _ _ _ (z_fits w)) as (_ & Z1 & Z2 & Z3 & Z4 & _).
  rewrite x_quotient, y_quotient, z_quotient.
  split; [ | split].
  - repeat (split; [assumption | ]).
    rewrite X4, xInt_bits. apply (negative_code_sign_bit 0 11); lia.
  - repeat (split; [assumption | ]).
    rewrite Y4, yInt_bits. apply (negative_code_sign_bit 11 11); lia.
  - repeat (split; [assumption | ]).
    rewrite Z4, zInt_bits. apply (negative_code_sign_bit 22 10); lia.
Qed.




Lemma SFltb_rank x y :
  Codec.ranked x = true -> Codec.ranked y = true ->
  SFltb x y = (Codec.rank x <? Codec.rank y).
Proof.
  destruct x as [s | s | | s m e], y as [s' | s' | | s' m' e'];
    cbn [Codec.ranked]; try discriminate; intros Hx Hy;
    unfold SFltb, SFcompare, Codec.rank.
  - reflexivity.
  - apply andb_true_iff in Hy. destruct Hy as [Hm He].
    apply Z.ltb_lt in Hm, He.
    destruct s'; symmetry; [apply Z.ltb_ge | apply Z.ltb_lt]; nia.
  - apply andb_true_iff in Hx. destruct Hx as [Hm He].
    apply Z.ltb_lt in Hm, He.
    destruct s; symmetry; [apply Z.ltb_lt | apply Z.ltb_ge]; nia.
  - apply andb_true_iff in Hx, Hy.
    destruct Hx as [Hm He], Hy as [Hm' He'].
    apply Z.ltb_lt in Hm, He, Hm', He'.
    rewrite Pos.compare_cont_spec. cbn [Pos.switch_Eq].
    change (Pos.compare m m') with (Z.compare (Zpos m) (Zpos m')).
    destruct s, s'.
    + destruct (Z.compare_spec e e') as [Ee | Le | Ge].
      * subst e'. destruct (Z.compare_spec (Zpos m) (Zpos m')); cbn [CompOpp];
          symmetry; first [apply Z.ltb_ge; lia | apply Z.ltb_lt; lia].
      * symmetry. apply Z.ltb_ge. nia.
      * symmetry. apply Z.ltb_lt. nia.
    + symmetry. apply Z.ltb_lt. nia.
    + symmetry. apply Z.ltb_ge. nia.
    + destruct (Z.compare_spec e e') as [Ee | Le | Ge].
      * subst e'. destruct (Z.compare_spec (Zpos m) (Zpos m'));
          symmetry; first [apply Z.ltb_ge; lia | apply Z.ltb_lt; lia].
      * symmetry. apply Z.ltb_lt. nia.
      * symmetry. apply Z.ltb_ge. nia.
Qed.

Lemma steps_up_11 : forallb (Codec.steps_up 11 1023) (Spec.codes 11) = true.
Proof. vm_compute. reflexivity. Qed.

Lemma steps_up_10 : forallb (Codec.steps_up 10 511) (Spec.codes 10) = true.
Proof. vm_compute. reflexivity. Qed.

Section Steps.
Variables W d : Z.
Hypothesis HW : 0 < W.
Hypothesis Hsteps : forallb (Codec.steps_up W d) (Spec.codes W) = true.

Lemma step_ranked n :
  - 2 ^ (W - 1) <= n <= 2 ^ (W - 1) - 1 ->
  Codec.ranked (Spec.quotient d n) = true.
Proof.
  intros Hn. pose proof (forall_codes _ W HW Hsteps n Hn) as H.
  unfold Codec.steps_up in H. apply andb_true_iff in H. tauto.
Qed.

Lemma step_next n :
  - 2 ^ (W - 1) <= n < 2 ^ (W - 1) - 1 ->
  Codec.rank (Spec.quotient d n) < Codec.rank (Spec.quotient d (n + 1)).
Proof.
  intros Hn. pose proof (forall_codes _ W HW Hsteps n ltac:(lia)) as H.
  unfold Codec.steps_up in H. apply andb_true_iff in H. destruct H as [_ H].
  apply orb_true_iff in H. destruct H as [H | H].
  - apply Z.eqb_eq in H. lia.
  - apply Z.ltb_lt in H. exact H.
Qed.

Lemma steps_chain (k : nat) n :
  - 2 ^ (W - 1) <= n -> n + 1 + Z.of_nat k <= 2 ^ (W - 1) - 1 ->
  Codec.rank (Spec.quotient d n)
  < Codec.rank (Spec.quotient d (n + 1 + Z.of_nat k)).
Proof.
  induction k as [ | k IH]; intros Hlo Hhi.
  - rewrite Z.add_0_r. apply step_next. lia.
  - apply Z.lt_trans with (Codec.rank (Spec.quotient d (n + 1 + Z.of_nat k))).
    + apply IH; lia.
    + replace (n + 1 + Z.of_nat (S k)) with (n + 1 + Z.of_nat k + 1) by lia.
      apply step_next. lia.
Qed.

Lemma quotient_order n n' :
  - 2 ^ (W - 1) <= n <= 2 ^ (W - 1) - 1 ->
  - 2 ^ (W - 1) <= n' <= 2 ^ (W - 1) - 1 ->
  SFltb (Spec.quotient d n) (Spec.quotient d n') = (n <? n').
Proof.
  intros Hn Hn'.
  rewrite SFltb_rank by (apply step_ranked; assumption).
  destruct (Z.ltb_spec n n') as [L | G].
  - apply Z.ltb_lt.
    replace n' with (n + 1 + Z.of_nat (Z.to_nat (n' - n - 1))) by lia.
    apply steps_chain; lia.
  - apply Z.ltb_ge. destruct (Z.eq_dec n n') as [-> | N]; [lia | ].
    apply Z.lt_le_incl.
    replace n with (n' + 1 + Z.of_nat (Z.to_nat (n - n' - 1))) by lia.
    apply steps_chain; lia.
Qed.
End Steps.

(** X5. The decoding keeps the order of the codes: one output is below
    another exactly when its signed field is. *)
Theorem packed_normal_order_preserved (w1 w2 : Z) :
  SFltb (Normal.x w1) (Normal.x w2) = (Normal.xInt w1 <? Normal.xInt w2) /\
  SFltb (Normal.y w1) (Normal.y w2) = (Normal.yInt w1 <? Normal.yInt w2) /\
  SFltb (Normal.z w1) (Normal.z w2) = (Normal.zInt w1 <? Normal.zInt w2).
Proof.
  rewrite !x_quotient, !y_quotient, !z_quotient.
  split; [ | split].
  - apply (quotient_order 11 1023 ltac:(lia) steps_up_11); apply xInt_range.
  - apply (quotient_order 11 1023 ltac:(lia) steps_up_11); apply yInt_range.
  - apply (quotient_order 10 511 ltac:(lia) steps_up_10); apply zInt_range.
Qed.

(** ** Offset-relative string: faults and sequences of records *)

Lemma read_le_before_start n st : cursor st < 0 -> read_le n st = Err PastEndOfFile.
Proof.
  intros H. unfold read_le.
  destruct (Z.leb_spec 0 (cursor st)); [lia | reflexivity].
Qed.

Lemma FSeek_outside p st :
  FileSize (file st) < p -> FSeek p st = Err InvalidSeek.
Proof.
  intros H. unfold FSeek.
  destruct (Z.leb_spec p (FileSize (file st))); [lia | ].
  rewrite andb_false_r. reflexivity.
Qed.

Lemma read_string_unterminated st :
  Spec.text_from (file st) (cursor st) = None ->
  read_string st = Err PastEndOfFile.
Proof.
  intros E. unfold read_string. unfold Spec.text_from in E. rewrite E.
  destruct ((0 <=? cursor st) && (cursor st <=? FileSize (file st)));
    reflexivity.
Qed.

(** X6. The record does not recover from a bad stream: with fewer than
    four bytes left the read faults on the offset; with a nonzero offset
    whose target (base + Offset) mod 2^32 is beyond the end, it faults on
    the seek; with a text that is not terminated before the end, it faults
    on the text.  No record is produced in any of these cases. *)
Theorem offset_string_faults (base : Z) (st : Stream) :
  (cursor st < 0 \/ FileSize (file st) < cursor st + 4 ->
   StringOffset.parse base st = Err PastEndOfFile) /\
  (0 <= cursor st -> cursor st + 4 <= FileSize (file st) ->
   le_at (file st) 4 (cursor st) <> 0 ->
   FileSize (file st) < Int.add_u32 base (le_at (file st) 4 (cursor st)) ->
   StringOffset.parse base st = Err InvalidSeek) /\
  (0 <= cursor st -> cursor st + 4 <= FileSize (file st) ->
   le_at (file st) 4 (cursor st) <> 0 ->
   Int.add_u32 base (le_at (file st) 4 (cursor st)) <= FileSize (file st) ->
   Spec.text_from (file st)
     (Int.add_u32 base (le_at (file st) 4 (cursor st))) = None ->
   StringOffset.parse base st = Err PastEndOfFile).
Proof.
  split; [ | split].
  - intros [H | H]; unfold StringOffset.parse, bind, read_u32.
    + rewrite read_le_before_start by assumption. reflexivity.
    + rewrite read_le_short by (change (Z.of_nat 4) with 4; assumption).
      reflexivity.
  - intros H0 H1 N0 Hout. unfold StringOffset.parse, bind, read_u32.
    rewrite (read_le_ok 4) by assumption.
    set (off := le_at (file st) 4 (cursor st)) in *.
    destruct (Z.eqb_spec off 0) as [ | _]; [contradiction | ].
    unfold FTell, at_cursor. cbn [negb cursor file seeks].
    rewrite FSeek_outside by (cbn [file]; assumption). reflexivity.
  - intros H0 H1 N0 Hin Hnone. unfold StringOffset.parse, bind, read_u32.
    rewrite (read_le_ok 4) by assumption.
    set (off := le_at (file st) 4 (cursor st)) in *.
    destruct (Z.eqb_spec off 0) as [ | _]; [contradiction | ].
    unfold FTell, at_cursor. cbn [negb cursor file seeks].
    pose proof (to_u32_range (base + off)) as Hr.
    fold (Int.add_u32 base off) in Hr.
    rewrite FSeek_ok by (cbn [file]; lia).
    rewrite read_string_unterminated by (cbn [cursor file]; exact Hnone).
    reflexivity.
Qed.

(** Two bytes left; a target of 104 in a stream of 20 bytes; a text that
    runs to the end of the stream. *)
Lemma offset_string_faults_witness :
  StringOffset.parse 0 (mkStream Example.table 18 []) = Err PastEndOfFile /\
  StringOffset.parse 100 (mkStream Example.table 12 []) = Err InvalidSeek /\
  StringOffset.parse 0 (mkStream Edge.unterminated 0 []) = Err PastEndOfFile.
Proof.
  split; [ | split].
  - apply (proj1 (offset_string_faults 0 (mkStream Example.table 18 []))).
    right. vm_compute. reflexivity.
  - apply (proj1 (proj2 (offset_string_faults 100 (mkStream Example.table 12 []))));
      vm_compute; first [reflexivity | discriminate].
  - apply (proj2 (proj2 (offset_string_faults 0 (mkStream Edge.unterminated 0 []))));
      vm_compute; first [reflexivity | discriminate].
Defined.

Lemma le_at_range f n a : 0 <= le_at f n a < 256 ^ Z.of_nat n.
Proof.
  revert a. induction n as [ | n IH]; intros a.
  - cbn. lia.
  - cbn [le_at]. rewrite Nat2Z.inj_succ, Z.pow_succ_r by lia.
    pose proof (IH (a + 1)).
    assert (0 <= byte_at f a < 256)
      by (unfold byte_at; apply Z.mod_pos_bound; lia).
    lia.
Qed.

Lemma le_at_u32 f a : 0 <= le_at f 4 a < 2 ^ 32.
Proof. exact (le_at_range f 4 a). Qed.

Lemma StringOffset_parse_frame base st r st' :
  StringOffset.parse base st = Ok r st' ->
  FileSize (file st) < 2 ^ 32 ->
  StringOffset.Offset r = le_at (file st) 4 (cursor st) /\
  cursor st' = cursor st + 4 /\
  file st' = file st /\
  0 <= cursor st /\ cursor st + 4 <= FileSize (file st).
Proof.
  intros E Hsize. apply StringOffset_parse_inv in E.
  destruct E as (H0 & H1 & Hoff & Hz & Hnz).
  split; [exact Hoff | ].
  destruct (Z.eq_dec (StringOffset.Offset r) 0) as [Z0 | N0].
  - destruct (Hz Z0) as (_ & ->). cbn [at_cursor cursor file]. auto.
  - destruct (Hnz N0) as (text & after & _ & _ & ->). cbn [cursor file].
    rewrite to_u32_small by lia. auto.
Qed.

(** X7. In a stream below 4 GiB, two records read one after the other are
    the two consecutive 32-bit words at the cursor, and the cursor ends 8
    bytes further, whatever texts they refer to. *)
Theorem offset_strings_back_to_back (base : Z) (st st1 st2 : Stream) (r1 r2 : StringOffset.t) :
  FileSize (file st) < 2 ^ 32 ->
  StringOffset.parse base st = Ok r1 st1 ->
  StringOffset.parse base st1 = Ok r2 st2 ->
  StringOffset.Offset r1 = le_at (file st) 4 (cursor st) /\
  StringOffset.Offset r2 = le_at (file st) 4 (cursor st + 4) /\
  cursor st2 = cursor st + 8 /\
  file st2 = file st.
Proof.
  intros Hsize E1 E2.
  apply StringOffset_parse_frame in E1; [ | exact Hsize].
  destruct E1 as (O1 & C1 & F1 & _).
  apply StringOffset_parse_frame in E2; [ | rewrite F1; exact Hsize].
  destruct E2 as (O2 & C2 & F2 & _).
  rewrite F1, C1 in O2. rewrite C2, C1, F2, F1.
  split; [exact O1 | ]. split; [exact O2 | ]. split; [lia | reflexivity].
Qed.

(** Two records whose texts are stored in the opposite order. *)
Lemma offset_strings_back_to_back_witness :
  exists r1 st1 r2 st2,
    StringOffset.parse 0 (mkStream Edge.pair 0 []) = Ok r1 st1 /\
    StringOffset.parse 0 st1 = Ok r2 st2 /\
    StringOffset.Value r1 = Some "B"%string /\
    StringOffset.Value r2 = Some "A"%string /\
    cursor st2 = 8.
Proof.
  eexists. eexists. eexists. eexists.
  split; [vm_compute; reflexivity | ].
  split; [vm_compute; reflexivity | ].
  split; [reflexivity | ]. split; [reflexivity | ].
  refine (proj1 (proj2 (proj2
    (offset_strings_back_to_back 0 (mkStream Edge.pair 0 []) _ _ _ _ _ _ _)))).
  - vm_compute. reflexivity.
  - vm_compute. reflexivity.
  - vm_compute. reflexivity.
Defined.

(** X8. In a decoded record the Value field is absent exactly when
    Offset is 0, Offset is a 32-bit value, and the display function always
    yields a text: it never reaches for a Value that was not declared. *)
Theorem offset_string_value_present (base : Z) (st st' : Stream) (r : StringOffset.t) :
  StringOffset.parse base st = Ok r st' ->
  (StringOffset.Value r = None <-> StringOffset.Offset r = 0) /\
  0 <= StringOffset.Offset r < 2 ^ 32 /\
  exists text, StringOffsetToString r = Some text.
Proof.
  intros E. apply StringOffset_parse_inv in E.
  destruct E as (_ & _ & Hoff & Hz & Hnz).
  unfold StringOffsetToString.
  destruct (Z.eqb_spec (StringOffset.Offset r) 0) as [Z0 | N0].
  - destruct (Hz Z0) as (HV & _).
    split; [tauto | ]. split; [lia | ]. eexists. reflexivity.
  - destruct (Hnz N0) as (text & after & _ & HV & _).
    split; [rewrite HV; split; [discriminate | contradiction] | ].
    split; [ | exists text; exact HV].
    rewrite Hoff. apply le_at_u32.
Qed.

(** The record at address 12 of the sample table, read with base 4. *)
Lemma offset_string_value_present_witness :
  exists r st',
    StringOffset.parse 4 (mkStream Example.table 12 []) = Ok r st' /\
    exists text, StringOffsetToString r = Some text.
Proof.
  eexists. eexists. split; [vm_compute; reflexivity | ].
  eapply (offset_string_value_present 4 (mkStream Example.table 12 [])).
  vm_compute. reflexivity.
Defined.

(** ** Display texts: lengths *)

Lemma of_uint_acc_ge d acc :
  Zpos acc * 10 ^ Z.of_nat (Decimal.nb_digits d) <= Zpos (Pos.of_uint_acc d acc).
Proof.
  revert acc. induction d; intros acc;
    cbn [Decimal.nb_digits Pos.of_uint_acc];
    try (rewrite Nat2Z.inj_succ, Z.pow_succ_r by lia);
    try (match goal with
         | |- _ <= Zpos (Pos.of_uint_acc _ ?a) =>
             specialize (IHd a);
             assert (0 < 10 ^ Z.of_nat (Decimal.nb_digits d))
               by (apply Z.pow_pos_nonneg; lia);
             nia
         end).
  cbn. lia.
Qed.

Lemma length_string_of_uint d :
  String.length (NilEmpty.string_of_uint d) = Decimal.nb_digits d.
Proof.
  induction d; cbn [NilEmpty.string_of_uint String.length Decimal.nb_digits];
    congruence.
Qed.

Lemma to_uint_digits (n : N) :
  (n = 0%N /\ N.to_uint n = Decimal.zero) \/
  10 ^ (Z.of_nat (Decimal.nb_digits (N.to_uint n)) - 1) <= Z.of_N n.
Proof.
  pose proof (DecimalN.Unsigned.of_to n) as Hof.
  pose proof (DecimalN.Unsigned.to_of (N.to_uint n)) as Hto.
  rewrite Hof in Hto. unfold N.of_uint in Hof.
  destruct (N.to_uint n) as [ | d | d | d | d | d | d | d | d | d | d ] eqn:E.
  1: { exfalso. cbn in Hof. subst n. cbn in E. discriminate E. }
  1: { unfold Decimal.unorm in Hto. cbn [Decimal.nzhead] in Hto.
       pose proof (DecimalFacts.nzhead_nonzero d) as Hnz.
       destruct (Decimal.nzhead d) eqn:En;
         try (exfalso; first [discriminate Hto | exact (Hnz _ eq_refl)]).
       inversion Hto; subst d. left. cbn in Hof. subst n. split; reflexivity. }
  all: right; cbn [Pos.of_uint] in Hof; subst n;
    cbn [Decimal.nb_digits Z.of_N];
    match goal with
    | |- _ <= Zpos (Pos.of_uint_acc _ ?a) =>
        pose proof (of_uint_acc_ge d a);
        assert (0 < 10 ^ Z.of_nat (Decimal.nb_digits d))
          by (apply Z.pow_pos_nonneg; lia);
        replace (Z.of_nat (S (Decimal.nb_digits d)) - 1)
          with (Z.of_nat (Decimal.nb_digits d)) by lia;
        nia
    end.
Qed.

Lemma length_decimal n K :
  0 <= n < 10 ^ K -> 1 <= K -> Z.of_nat (String.length (decimal n)) <= K.
Proof.
  intros Hn HK. unfold decimal.
  destruct (to_uint_digits (Z.to_N n)) as [[_ E] | H].
  - rewrite E. cbn. lia.
  - assert (Hne : N.to_uint (Z.to_N n) <> Decimal.Nil).
    { destruct (Z.to_N n); cbn; [discriminate | ].
      apply DecimalPos.Unsigned.to_uint_nonnil. }
    assert (Es : NilZero.string_of_uint (N.to_uint (Z.to_N n))
                 = NilEmpty.string_of_uint (N.to_uint (Z.to_N n))).
    { destruct (N.to_uint (Z.to_N n)); [contradiction | reflexivity ..]. }
    rewrite Es, length_string_of_uint.
    rewrite Z2N.id in H by lia.
    set (L := Z.of_nat (Decimal.nb_digits (N.to_uint (Z.to_N n)))) in *.
    destruct (Z.le_gt_cases L K) as [ | G]; [assumption | exfalso].
    assert (10 ^ K <= 10 ^ (L - 1)) by (apply Z.pow_le_mono_r; lia).
    lia.
Qed.

Lemma scaled6_integer_part m e :
  Zpos m < 2 ^ 24 -> e <= 104 -> 0 <= scaled6 m e / 10 ^ 6 < 10 ^ 39.
Proof.
  intros Hm He. unfold scaled6.
  destruct (Z.leb_spec 0 e) as [P | N].
  - rewrite <- Z.mul_assoc, (Z.mul_comm (10 ^ 6)), Z.mul_assoc.
    rewrite Z.div_mul by lia.
    assert (0 < 2 ^ e) by (apply Z.pow_pos_nonneg; lia).
    assert (2 ^ e <= 2 ^ 104) by (apply Z.pow_le_mono_r; lia).
    split; [lia | ].
    apply Z.le_lt_trans with (2 ^ 24 * 2 ^ 104); [nia | reflexivity].
  - set (n := Zpos m * 10 ^ 6). set (d := 2 ^ (- e)).
    assert (Hd : 2 <= d).
    { unfold d. change 2 with (2 ^ 1) at 1. apply Z.pow_le_mono_r; lia. }
    assert (Hn : 10 ^ 6 <= n) by (unfold n; lia).
    assert (Hq : 0 <= n / d) by (apply Z.div_pos; lia).
    assert (Hq' : n / d + 1 <= n).
    { assert (n / d <= n / 2) by (apply Z.div_le_compat_l; lia).
      assert (n / 2 * 2 <= n) by (rewrite Z.mul_comm; apply Z.mul_div_le; lia).
      lia. }
    assert (B : forall q, 0 <= q <= n -> 0 <= q / 10 ^ 6 < 10 ^ 39).
    { intros q Hq0. split; [apply Z.div_pos; lia | ].
      apply Z.div_lt_upper_bound; [lia | ]. unfold n in Hq0. lia. }
    destruct (2 * (n mod d) ?= d); [destruct (Z.even (n / d)) | | ];
      apply B; lia.
Qed.

Lemma length_fixed6_of_scaled s q :
  0 <= q / 10 ^ 6 < 10 ^ 39 ->
  (String.length (fixed6_of_scaled s q) <= 47)%nat.
Proof.
  intros Hq. unfold fixed6_of_scaled.
  rewrite !length_append, length_frac6.
  pose proof (length_decimal (q / 10 ^ 6) 39 Hq ltac:(lia)).
  destruct s; cbn [sign_text String.length]; lia.
Qed.

Lemma length_fixed6 x :
  Bound.ranged x = true -> (String.length (fixed6 x) <= 47)%nat.
Proof.
  destruct x as [s | s | | s m e]; cbn [Bound.ranged fixed6]; intros H.
  - apply length_fixed6_of_scaled. rewrite Z.div_0_l by lia.
    split; [lia | apply Z.pow_pos_nonneg; lia].
  - destruct s; cbn; lia.
  - cbn. lia.
  - apply andb_true_iff in H. destruct H as [Hm He].
    apply Z.ltb_lt in Hm. apply Z.leb_le in He.
    apply length_fixed6_of_scaled, scaled6_integer_part; assumption.
Qed.

Lemma f32_of_bits_ranged b : Bound.ranged (Float.f32_of_bits b) = true.
Proof.
  unfold Float.f32_of_bits, Float.of_bits.
  change (2 ^ (8 - 1) - 1) with 127. change (2 ^ 8 - 1) with 255.
  pose proof (Z.mod_pos_bound (b / 2 ^ 23) (2 ^ 8) ltac:(lia)) as He.
  pose proof (Z.mod_pos_bound b (2 ^ 23) ltac:(lia)) as Hm.
  set (e := (b / 2 ^ 23) mod 2 ^ 8) in *. set (m := b mod 2 ^ 23) in *.
  destruct (Z.eqb_spec e 0).
  - destruct m as [ | p | p] eqn:Em; cbn [Bound.ranged]; try reflexivity.
    apply andb_true_iff. split; [apply Z.ltb_lt | apply Z.leb_le]; lia.
  - destruct (Z.eqb_spec e 255).
    + destruct (m =? 0); reflexivity.
    + destruct (m + 2 ^ 23) as [ | p | p] eqn:Em; cbn [Bound.ranged];
        try reflexivity.
      apply andb_true_iff. split; [apply Z.ltb_lt | apply Z.leb_le]; lia.
Qed.

Lemma f16_of_bits_ranged b : Bound.ranged (Float.f16_of_bits b) = true.
Proof.
  unfold Float.f16_of_bits, Float.of_bits.
  change (2 ^ (5 - 1) - 1) with 15. change (2 ^ 5 - 1) with 31.
  pose proof (Z.mod_pos_bound (b / 2 ^ 10) (2 ^ 5) ltac:(lia)) as He.
  pose proof (Z.mod_pos_bound b (2 ^ 10) ltac:(lia)) as Hm.
  set (e := (b / 2 ^ 10) mod 2 ^ 5) in *. set (m := b mod 2 ^ 10) in *.
  destruct (Z.eqb_spec e 0).
  - destruct m as [ | p | p] eqn:Em; cbn [Bound.ranged]; try reflexivity.
    apply andb_true_iff. split; [apply Z.ltb_lt | apply Z.leb_le]; lia.
  - destruct (Z.eqb_spec e 31).
    + destruct (m =? 0); reflexivity.
    + destruct (m + 2 ^ 10) as [ | p | p] eqn:Em; cbn [Bound.ranged];
        try reflexivity.
      apply andb_true_iff. split; [apply Z.ltb_lt | apply Z.leb_le]; lia.
Qed.

Lemma length_f32_at f a : (String.length (fixed6 (Spec.f32_at f a)) <= 47)%nat.
Proof. apply length_fixed6, f32_of_bits_ranged. Qed.

Lemma length_f16_at f a : (String.length (fixed6 (Spec.f16_at f a)) <= 47)%nat.
Proof. apply length_fixed6, f16_of_bits_ranged. Qed.

Lemma reads_value {A} (p : M A) w v st a st' :
  Spec.reads p w v -> 0 <= cursor st -> p st = Ok a st' ->
  a = v (file st) (cursor st).
Proof.
  intros Hp H0 E. destruct (Hp st H0) as [H1 H2].
  destruct (Z.le_gt_cases (cursor st + w) (FileSize (file st))) as [L | G].
  - rewrite (H1 L) in E. inversion E. reflexivity.
  - rewrite (H2 G) in E. discriminate E.
Qed.

Lemma buffered_short s :
  (String.length s < 255)%nat -> Spec.buffered s = Some s.
Proof.
  intros H. unfold Spec.buffered.
  destruct (Nat.ltb_spec (String.length s) 255); [reflexivity | lia].
Qed.


Lemma append_assoc (a b c : string) : ((a ++ b) ++ c = a ++ (b ++ c))%string.
Proof. induction a as [ | x a IH]; cbn [append]; [ | rewrite IH]; reflexivity. Qed.

Lemma Vector3ToString_text v :
  Vector3ToString v = Spec.buffered (Bound.vector3_text v).
Proof. reflexivity. Qed.

Lemma BoundingBoxToString_text v :
  BoundingBoxToString v = Spec.buffered (Bound.box_text v).
Proof.
  unfold Bound.box_text, Bound.vector3_text.
  rewrite !append_assoc. reflexivity.
Qed.

Lemma buffered_inv s t : Spec.buffered s = Some t -> s = t /\ (String.length s < 255)%nat.
Proof.
  unfold Spec.buffered.
  destruct (Nat.ltb_spec (String.length s) 255) as [L | G]; intros E;
    [ | discriminate E].
  inversion E. subst t. split; [reflexivity | exact L].
Qed.

(** X11. A BoundingBox is displayed as the display of its Min, a space,
    and the display of its Max; a BoundingSphere as the display of its
    Center, a space, and its Radius with six decimals. *)
Theorem bounding_texts_composed :
  (forall v t,
     BoundingBoxToString v = Some t ->
     exists a b,
       Vector3ToString (BoundingBox.Min v) = Some a /\
       Vector3ToString (BoundingBox.Max v) = Some b /\
       t = (a ++ " " ++ b)%string) /\
  (forall v t,
     BoundingSphereToString v = Some t ->
     exists a,
       Vector3ToString (BoundingSphere.Center v) = Some a /\
       t = (a ++ " " ++ fixed6 (BoundingSphere.Radius v))%string).
Proof.
  split.
  - intros v t E. rewrite BoundingBoxToString_text in E.
    apply buffered_inv in E. destruct E as [<- L].
    unfold Bound.box_text in *. rewrite !length_append in L.
    exists (Bound.vector3_text (BoundingBox.Min v)),
           (Bound.vector3_text (BoundingBox.Max v)).
    rewrite !Vector3ToString_text, !buffered_short by lia. auto.
  - intros v t E. rewrite BoundingSphereToString_text in E.
    apply buffered_inv in E. destruct E as [<- L].
    exists (Bound.vector3_text (BoundingSphere.Center v)).
    rewrite Vector3ToString_text.
    assert (Et : ("[" ++ fixed6 (Vector3.X (BoundingSphere.Center v)) ++ ", "
                  ++ fixed6 (Vector3.Y (BoundingSphere.Center v)) ++ ", "
                  ++ fixed6 (Vector3.Z (BoundingSphere.Center v)) ++ "] "
                  ++ fixed6 (BoundingSphere.Radius v))%string
                 = (Bound.vector3_text (BoundingSphere.Center v) ++ " "
                    ++ fixed6 (BoundingSphere.Radius v))%string).
    { unfold Bound.vector3_text. rewrite !append_assoc. reflexivity. }
    rewrite Et in *. rewrite !length_append in L.
    rewrite buffered_short by lia. auto.
Qed.

(** The box from (1, 2, 3) to (4, 5, 6). *)
Lemma bounding_texts_composed_witness :
  exists a b,
    Vector3ToString (Vector3.mk (Float.of_int 1) (Float.of_int 2) (Float.of_int 3))
    = Some a /\
    Vector3ToString (Vector3.mk (Float.of_int 4) (Float.of_int 5) (Float.of_int 6))
    = Some b /\
    "[1.000000, 2.000000, 3.000000] [4.000000, 5.000000, 6.000000]"%string
    = (a ++ " " ++ b)%string.
Proof.
  apply (proj1 bounding_texts_composed
           (BoundingBox.mk
              (Vector3.mk (Float.of_int 1) (Float.of_int 2) (Float.of_int 3))
              (Vector3.mk (Float.of_int 4) (Float.of_int 5) (Float.of_int 6)))).
  vm_compute. reflexivity.
Defined.

Lemma length_vector3_text f a :
  (String.length
     (Bound.vector3_text
        (Vector3.mk (Spec.f32_at f a) (Spec.f32_at f (a + 4))
                    (Spec.f32_at f (a + 8)))) <= 147)%nat.
Proof.
  unfold Bound.vector3_text. cbn [Vector3.X Vector3.Y Vector3.Z].
  rewrite !length_append. cbn [String.length].
  pose proof (length_f32_at f a). pose proof (length_f32_at f (a + 4)).
  pose proof (length_f32_at f (a + 8)). lia.
Qed.

(** X9. The texts of Vector2, Vector2Half, Vector3, Vector4 and
    BoundingSphere values read from a stream always fit the 255-character
    buffer of their display functions: a component takes at most 47
    characters. *)
Theorem vector_texts_fit_buffer (st st' : Stream) :
  0 <= cursor st ->
  (forall v, Vector2.parse st = Ok v st' ->
             exists t, Vector2ToString v = Some t) /\
  (forall v, Vector2Half.parse st = Ok v st' ->
             exists t, Vector2HalfToString v = Some t) /\
  (forall v, Vector3.parse st = Ok v st' ->
             exists t, Vector3ToString v = Some t) /\
  (forall v, Vector4.parse st = Ok v st' ->
             exists t, Vector4ToString v = Some t) /\
  (forall v, BoundingSphere.parse st = Ok v st' ->
             exists t, BoundingSphereToString v = Some t).
Proof.
  intros H0.
  split; [ | split; [ | split; [ | split]]]; intros v E.
  - apply (reads_value _ _ _ _ _ _ reads_Vector2 H0) in E. subst v.
    eexists. change (Vector2ToString ?v) with
      (Spec.buffered ("[" ++ fixed6 (Vector2.X v) ++ ", "
                      ++ fixed6 (Vector2.Y v) ++ "]")%string).
    apply buffered_short. cbn [Vector2.X Vector2.Y].
    rewrite !length_append. cbn [String.length].
    pose proof (length_f32_at (file st) (cursor st)).
    pose proof (length_f32_at (file st) (cursor st + 4)). lia.
  - apply (reads_value _ _ _ _ _ _ reads_Vector2Half H0) in E. subst v.
    eexists. change (Vector2HalfToString ?v) with
      (Spec.buffered ("[" ++ fixed6 (Vector2Half.X v) ++ ", "
                      ++ fixed6 (Vector2Half.Y v) ++ "]")%string).
    apply buffered_short. cbn [Vector2Half.X Vector2Half.Y].
    rewrite !length_append. cbn [String.length].
    pose proof (length_f16_at (file st) (cursor st)).
    pose proof (length_f16_at (file st) (cursor st + 2)). lia.
  - apply (reads_value _ _ _ _ _ _ reads_Vector3 H0) in E. subst v.
    eexists. rewrite Vector3ToString_text. apply buffered_short.
    pose proof (length_vector3_text (file st) (cursor st)). lia.
  - apply (reads_value _ _ _ _ _ _ reads_Vector4 H0) in E. subst v.
    eexists. change (Vector4ToString ?v) with
      (Spec.buffered ("[" ++ fixed6 (Vector4.X v) ++ ", "
                      ++ fixed6 (Vector4.Y v) ++ ", "
                      ++ fixed6 (Vector4.Z v) ++ ", "
                      ++ fixed6 (Vector4.W v) ++ "]")%string).
    apply buffered_short. cbn [Vector4.X Vector4.Y Vector4.Z Vector4.W].
    rewrite !length_append. cbn [String.length].
    pose proof (length_f32_at (file st) (cursor st)).
    pose proof (length_f32_at (file st) (cursor st + 4)).
    pose proof (length_f32_at (file st) (cursor st + 8)).
    pose proof (length_f32_at (file st) (cursor st + 12)). lia.
  - apply (reads_value _ _ _ _ _ _ reads_BoundingSphere H0) in E. subst v.
    eexists. rewrite BoundingSphereToString_text. apply buffered_short.
    cbn [BoundingSphere.Center BoundingSphere.Radius Vector3.X Vector3.Y Vector3.Z].
    rewrite !length_append. cbn [String.length].
    pose proof (length_f32_at (file st) (cursor st)).
    pose proof (length_f32_at (file st) (cursor st + 4)).
    pose proof (length_f32_at (file st) (cursor st + 8)).
    pose proof (length_f32_at (file st) (cursor st + 12)). lia.
Qed.

(** Four times the most negative finite binary32 value. *)
Lemma vector_texts_fit_buffer_witness :
  exists t, Vector4ToString
              (Vector4.mk (Spec.f32_at Edge.extremes 0)
                 (Spec.f32_at Edge.extremes 4) (Spec.f32_at Edge.extremes 8)
                 (Spec.f32_at Edge.extremes 12)) = Some t.
Proof.
  apply (proj1 (proj2 (proj2 (proj2
           (vector_texts_fit_buffer (mkStream Edge.extremes 0 []) (mkStream Edge.extremes 16 [])
               ltac:(cbn; lia)))))).
  vm_compute. reflexivity.
Defined.

(** X10. The text of a BoundingBox read from a stream has at most 295
    characters, and 295 are reached (six times the most negative finite
    binary32 value): that text does not fit the 255-character buffer. *)
Theorem bounding_box_text_length :
  (forall st st' v,
     0 <= cursor st -> BoundingBox.parse st = Ok v st' ->
     BoundingBoxToString v = Spec.buffered (Bound.box_text v) /\
     (String.length (Bound.box_text v) <= 295)%nat) /\
  (exists v st',
     BoundingBox.parse (mkStream Edge.extremes 0 []) = Ok v st' /\
     String.length (Bound.box_text v) = 295%nat /\
     BoundingBoxToString v = None).
Proof.
  split.
  - intros st st' v H0 E. split; [apply BoundingBoxToString_text | ].
    apply (reads_value _ _ _ _ _ _ reads_BoundingBox H0) in E. subst v.
    unfold Bound.box_text. cbn [BoundingBox.Min BoundingBox.Max].
    rewrite !length_append. cbn [String.length].
    pose proof (length_vector3_text (file st) (cursor st)) as A.
    pose proof (length_vector3_text (file st) (cursor st + 12)) as B.
    replace (cursor st + 12 + 4) with (cursor st + 16) in B by lia.
    replace (cursor st + 12 + 8) with (cursor st + 20) in B by lia.
    lia.
  - eexists. eexists. split; [vm_compute; reflexivity | ].
    split; vm_compute; reflexivity.
Qed.

(** The BoundingBox in the first 24 bytes of the sample floats. *)
Lemma bounding_box_text_length_witness :
  exists v st',
    BoundingBox.parse (mkStream Example.floats 0 []) = Ok v st' /\
    (String.length (Bound.box_text v) <= 295)%nat.
Proof.
  eexists. eexists. split; [vm_compute; reflexivity | ].
  eapply (proj1 bounding_box_text_length (mkStream Example.floats 0 []));
    [cbn; lia | vm_compute; reflexivity].
Defined.

(** ** Display texts: what a text stands for *)














